(** * SocketFd: the two socket backends of tdutils/td/utils/port/SocketFd.cpp

    The file has two variants of [SocketFdImpl], selected by the preprocessor:
    the completion backend (TD_PORT_WINDOWS, overlapped I/O delivered through
    Iocp) and the readiness backend (TD_PORT_POSIX, plain non-blocking
    read/write).  Both are embedded here as state-passing programs over a
    small state-and-abort monad; every answer of the operating system is an
    explicit argument of the function that asks for it. *)

From Stdlib Require Import ZArith List Bool String Lia.
Import ListNotations.
Local Open Scope Z_scope.

(** ** Status, Result *)

Inductive Piece :=
| Str (s : string)
| Num (z : Z).

Definition Message := list Piece.

Record ErrorInfo := mkError { code : Z; message : Message }.

Inductive Status :=
| OK
| Error (e : ErrorInfo).

Definition is_ok (s : Status) : bool :=
  match s with OK => true | Error _ => false end.

Inductive Result (A : Type) :=
| Ok (a : A)
| Err (e : ErrorInfo).
Arguments Ok {A} a.
Arguments Err {A} e.

Definition Slice := list Byte.byte.
Definition MutableSlice := list Byte.byte.

Definition size (s : list Byte.byte) : N := N.of_nat (List.length s).

(** ** Process outcome and the state monad of the methods

    [LOG(FATAL)], a failed [CHECK] and [UNREACHABLE] terminate the process. *)

Inductive FatalCause :=
| LogFatal (e : ErrorInfo)
| CheckFailed (what : string)
| Unreachable.

Inductive Outcome (A : Type) :=
| Done (a : A)
| Fatal (why : FatalCause).
Arguments Done {A} a.
Arguments Fatal {A} why.

Definition M (W A : Type) : Type := W -> Outcome (A * W).

Definition ret {W A} (a : A) : M W A := fun w => Done (a, w).

Definition bind {W A B} (m : M W A) (k : A -> M W B) : M W B :=
  fun w => match m w with
           | Done (a, w') => k a w'
           | Fatal why => Fatal why
           end.

Definition get {W} : M W W := fun w => Done (w, w).
Definition modify {W} (f : W -> W) : M W unit := fun w => Done (tt, f w).
Definition abort {W A} (why : FatalCause) : M W A := fun _ => Fatal why.

Definition CHECK {W} (what : string) (b : bool) : M W unit :=
  if b then ret tt else abort (CheckFailed what).

Declare Scope sock_scope.
Notation "x <- c ;; k" := (bind c (fun x => k))
  (at level 61, c at next level, right associativity) : sock_scope.
Notation "c ;; k" := (bind c (fun _ => k))
  (at level 61, right associativity) : sock_scope.
Local Open Scope sock_scope.

(** [TRY_STATUS(expr)]: leave the enclosing function with the error of
    [expr], go on when it is OK. *)
Definition TRY_STATUS {W A} (m : M W Status) (k : M W (Result A)) : M W (Result A) :=
  s <- m ;;
  match s with
  | Error e => ret (Err e)
  | OK => k
  end.

(** ** PollFlags, PollableFdInfo, NativeFd *)

(** Modelled from the spec: PollFlags.h is not part of the sources.  PollState
    is a set of four semantic bits, Read, Write, Close and Error, with
    [add_flags], [clear_flags] and [has_pending_error]. *)
Module PollFlags.
Record t := mk { write : bool; read : bool; close : bool; error : bool }.

Definition empty : t := mk false false false false.
Definition Write : t := mk true false false false.
Definition Read : t := mk false true false false.
Definition Close : t := mk false false true false.
Definition Error : t := mk false false false true.

Definition union (a b : t) : t :=
  mk (write a || write b) (read a || read b) (close a || close b) (error a || error b).
Definition diff (a b : t) : t :=
  mk (write a && negb (write b)) (read a && negb (read b))
     (close a && negb (close b)) (error a && negb (error b)).

Definition has_pending_error (a : t) : bool := error a.
End PollFlags.

(** Modelled from the spec: NativeFd.h is not part of the sources.  A native
    descriptor is an integer; the empty descriptor is -1. *)
Definition NativeFd := Z.
Definition empty_fd : NativeFd := -1.
Definition NativeFd_bool (fd : NativeFd) : bool := negb (fd =? empty_fd).

(** Modelled from the spec: PollableFdInfo (the PollState of the spec) owns
    the native descriptor and the flag set. *)
Record PollableFdInfo := mkInfo { native_fd : NativeFd; flags : PollFlags.t }.

Definition info_add_flags (f : PollFlags.t) (i : PollableFdInfo) : PollableFdInfo :=
  mkInfo (native_fd i) (PollFlags.union (flags i) f).
Definition info_clear_flags (f : PollFlags.t) (i : PollableFdInfo) : PollableFdInfo :=
  mkInfo (native_fd i) (PollFlags.diff (flags i) f).
Definition info_set_native_fd (fd : NativeFd) (i : PollableFdInfo) : PollableFdInfo :=
  mkInfo fd (flags i).

Definition mem (x : Z) (l : list Z) : bool := existsb (Z.eqb x) l.

(** Modelled from the spec: IPAddress.h is not part of the sources; an address
    is its family and its printed form. *)
Record IPAddress := mkAddr { get_address_family : Z; addr_text : string }.

(** An answer of a system call: the returned value and errno after it. *)
Record Syscall := mkSys { sys_ret : Z; sys_errno : Z }.

(** The answer of [getsockopt(SO_ERROR)]: return value, the error stored in
    the out-parameter, errno. *)
Record Getsockopt := mkGso { gso_ret : Z; gso_error : Z; gso_errno : Z }.

(** The errno constants come from the platform headers. *)
Record Errno := mkErrno {
  EAGAIN : Z; EWOULDBLOCK : Z; EINPROGRESS : Z;
  EBADF : Z; ENXIO : Z; EFAULT : Z; EINVAL : Z; EISDIR : Z;
  ECONNRESET : Z; EDQUOT : Z; EFBIG : Z; EIO : Z; ENETDOWN : Z;
  ENETUNREACH : Z; ENOSPC : Z; EPIPE : Z;
  ENOTCONN : Z; ENOBUFS : Z; ENOMEM : Z; ETIMEDOUT : Z
}.

(** The values of Linux (asm-generic/errno.h). *)
Definition linux : Errno :=
  {| EAGAIN := 11; EWOULDBLOCK := 11; EINPROGRESS := 115;
     EBADF := 9; ENXIO := 6; EFAULT := 14; EINVAL := 22; EISDIR := 21;
     ECONNRESET := 104; EDQUOT := 122; EFBIG := 27; EIO := 5; ENETDOWN := 100;
     ENETUNREACH := 101; ENOSPC := 28; EPIPE := 32;
     ENOTCONN := 107; ENOBUFS := 105; ENOMEM := 12; ETIMEDOUT := 110 |}.

(** The answers of the operating system during [init_socket_options]:
    [set_is_blocking_unsafe(false)] (NativeFd.cpp, not part of the sources,
    returns a Status) and the three [setsockopt] calls. *)
Record OptionsOs := mkOptionsOs {
  set_is_blocking_unsafe : Status;
  setsockopt_reuseaddr : Z;
  setsockopt_keepalive : Z;
  setsockopt_nodelay : Z
}.

(** [detail::init_socket_options]: the results of the three [setsockopt]
    calls are dropped. *)
Definition init_socket_options (fd : NativeFd) (os : OptionsOs) : Status :=
  match set_is_blocking_unsafe os with
  | Error e => Error e
  | OK =>
      let _ := setsockopt_reuseaddr os in
      let _ := setsockopt_keepalive os in
      let _ := setsockopt_nodelay os in
      OK
  end.

(** ** The readiness backend (TD_PORT_POSIX) *)

Module Posix.

Inductive Event :=
| Sys_write (fd : NativeFd) (len : N)
| Sys_read (fd : NativeFd) (len : N)
| Sys_getsockopt (fd : NativeFd)
| LogWarning (e : ErrorInfo)
| LogInfo (e : ErrorInfo).

Record SocketFdImpl := mkImpl { info : PollableFdInfo }.

(** The object together with the system calls and log lines it produced. *)
Record World := mkWorld { impl : SocketFdImpl; trace : list Event }.

Definition emit (e : Event) : M World unit :=
  modify (fun w => mkWorld (impl w) (trace w ++ [e])).

Definition get_native_fd (s : SocketFdImpl) : NativeFd := native_fd (info s).
Definition get_flags (w : World) : PollFlags.t := flags (info (impl w)).

Definition clear_flags (f : PollFlags.t) : M World unit :=
  modify (fun w => mkWorld (mkImpl (info_clear_flags f (info (impl w)))) (trace w)).
Definition add_flags (f : PollFlags.t) : M World unit :=
  modify (fun w => mkWorld (mkImpl (info_add_flags f (info (impl w)))) (trace w)).

Definition is_warning (e : Event) : bool :=
  match e with LogWarning _ => true | _ => false end.
Section WithErrno.
Variable E : Errno.

Definition PosixError (errno : Z) (msg : Message) : ErrorInfo := mkError errno msg.

(** [detail::get_socket_pending_error] *)
Definition get_socket_pending_error (fd : NativeFd) (os : Getsockopt) : M World Status :=
  emit (Sys_getsockopt fd) ;;
  if gso_ret os =? 0 then
    if gso_error os =? 0 then ret OK
    else ret (Error (PosixError (gso_error os)
                       [Str "Error on socket [fd_ = "; Num fd; Str "]"]))
  else
    let status := PosixError (gso_errno os)
                    [Str "Can't load error on socket [fd_ = "; Num fd; Str "]"] in
    emit (LogInfo status) ;;
    ret (Error status).

(** [SocketFdImpl::get_pending_error] *)
Definition get_pending_error (os : Getsockopt) : M World Status :=
  w <- get ;;
  if negb (PollFlags.has_pending_error (get_flags w)) then ret OK
  else
    s <- get_socket_pending_error (get_native_fd (impl w)) os ;;
    match s with
    | Error e => ret (Error e)
    | OK => clear_flags PollFlags.Error ;; ret OK
    end.

Definition write_fatal : list Z := [EBADF E; ENXIO E; EFAULT E; EINVAL E].
Definition write_known : list Z :=
  [ECONNRESET E; EDQUOT E; EFBIG E; EIO E; ENETDOWN E; ENETUNREACH E; ENOSPC E; EPIPE E].

(** [SocketFdImpl::write]; [os] is what [skip_eintr] hands back. *)
Definition write (slice : Slice) (os : Syscall) : M World (Result N) :=
  w <- get ;;
  let native_fd := get_native_fd (impl w) in
  emit (Sys_write native_fd (size slice)) ;;
  let write_res := sys_ret os in
  let write_errno := sys_errno os in
  if 0 <=? write_res then ret (Ok (Z.to_N write_res))
  else if (write_errno =? EAGAIN E) || (write_errno =? EWOULDBLOCK E) then
    clear_flags PollFlags.Write ;;
    ret (Ok 0%N)
  else
    let error := PosixError write_errno
                   [Str "Write to fd "; Num native_fd; Str " has failed"] in
    if mem write_errno write_fatal then abort (LogFatal error)
    else
      (if mem write_errno write_known then ret tt else emit (LogWarning error)) ;;
      clear_flags PollFlags.Write ;;
      add_flags PollFlags.Close ;;
      ret (Err error).

Definition read_fatal : list Z := [EISDIR E; EBADF E; ENXIO E; EFAULT E; EINVAL E].
Definition read_known : list Z :=
  [ENOTCONN E; EIO E; ENOBUFS E; ENOMEM E; ECONNRESET E; ETIMEDOUT E].

(** [SocketFdImpl::read]; [os] is what [skip_eintr] hands back.  The bytes
    themselves are stored by the system call and [errno = 0] touches no state
    of the object: neither appears here. *)
Definition read (slice : MutableSlice) (gso : Getsockopt) (os : Syscall)
  : M World (Result N) :=
  w <- get ;;
  TRY_STATUS (if PollFlags.has_pending_error (get_flags w)
              then get_pending_error gso else ret OK)
  (let native_fd := get_native_fd (impl w) in
   CHECK "slice.size() > 0" (0 <? size slice)%N ;;
   emit (Sys_read native_fd (size slice)) ;;
   let read_res := sys_ret os in
   let read_errno := sys_errno os in
   if 0 <=? read_res then
     (if read_res =? 0 then
        clear_flags PollFlags.Read ;;
        add_flags PollFlags.Close
      else ret tt) ;;
     ret (Ok (Z.to_N read_res))
   else if (read_errno =? EAGAIN E) || (read_errno =? EWOULDBLOCK E) then
     clear_flags PollFlags.Read ;;
     ret (Ok 0%N)
   else
     let error := PosixError read_errno
                    [Str "Read from fd "; Num native_fd; Str " has failed"] in
     if mem read_errno read_fatal then abort (LogFatal error)
     else
       (if mem read_errno read_known then ret tt else emit (LogWarning error)) ;;
       clear_flags PollFlags.Read ;;
       add_flags PollFlags.Close ;;
       ret (Err error)).

(** The handle: [unique_ptr<SocketFdImpl, SocketFdImplDeleter> impl_]. *)
Record SocketFd := mkSocketFd { impl_ : option SocketFdImpl }.

Definition empty (s : SocketFd) : bool :=
  match impl_ s with Some _ => false | None => true end.

(** The answers of the operating system during [SocketFd::open]. *)
Record OpenOs := mkOpenOs {
  socket_call : Syscall;
  options : OptionsOs;
  connect_call : Syscall
}.

(** [SocketFd::from_native_fd] *)
Definition from_native_fd (fd : NativeFd) (os : OptionsOs) : Result SocketFd :=
  match init_socket_options fd os with
  | Error e => Err e
  | OK => Ok (mkSocketFd (Some (mkImpl (mkInfo fd PollFlags.empty))))
  end.

(** [SocketFd::open], the TD_PORT_POSIX branch. *)
Definition open (address : IPAddress) (os : OpenOs) : Result SocketFd :=
  let native_fd : NativeFd := sys_ret (socket_call os) in
  if negb (NativeFd_bool native_fd) then
    Err (PosixError (sys_errno (socket_call os)) [Str "Failed to create a socket"])
  else
    match init_socket_options native_fd (options os) with
    | Error e => Err e
    | OK =>
        let e_connect := sys_ret (connect_call os) in
        let connect_errno := sys_errno (connect_call os) in
        let created := Ok (mkSocketFd (Some (mkImpl (mkInfo native_fd PollFlags.empty)))) in
        if e_connect =? -1 then
          if negb (connect_errno =? EINPROGRESS E) then
            Err (PosixError connect_errno
                   [Str "Failed to connect to "; Str (addr_text address)])
          else created
        else created
    end.

End WithErrno.

End Posix.


(** ** The completion backend (TD_PORT_WINDOWS) *)

Module Iocp.

(** The [WSAOVERLAPPED *] values a completion can carry: the addresses of the
    three members, the null pointer, and any other pointer. *)
Inductive Overlapped :=
| read_overlapped_
| write_overlapped_
| nullptr
| close_overlapped_
| foreign_overlapped.

Definition Overlapped_eqb (a b : Overlapped) : bool :=
  match a, b with
  | read_overlapped_, read_overlapped_
  | write_overlapped_, write_overlapped_
  | nullptr, nullptr
  | close_overlapped_, close_overlapped_
  | foreign_overlapped, foreign_overlapped => true
  | _, _ => false
  end.

(** Modelled from the spec: buffer.h is not part of the sources.  A
    StagingBuffer is a byte queue with a writer side (append) and a reader
    side (consume); the reader sees what was appended only after
    [sync_with_writer].  [chain] holds the bytes appended and not yet
    consumed, [visible] how many of them the reader has synchronised. *)
Record ChainBuffer := mkBuf { chain : list Byte.byte; visible : nat }.

Definition buf_empty : ChainBuffer := mkBuf [] 0.
Definition append (data : Slice) (b : ChainBuffer) : ChainBuffer :=
  mkBuf (chain b ++ data) (visible b).
Definition confirm_append (n : N) (region : list Byte.byte) (b : ChainBuffer) : ChainBuffer :=
  mkBuf (chain b ++ firstn (N.to_nat n) region) (visible b).
Definition sync_with_writer (b : ChainBuffer) : ChainBuffer :=
  mkBuf (chain b) (List.length (chain b)).
Definition reader_size (b : ChainBuffer) : N := N.of_nat (visible b).
Definition prepare_read (b : ChainBuffer) : Slice := firstn (visible b) (chain b).
Definition confirm_read (n : N) (b : ChainBuffer) : ChainBuffer :=
  mkBuf (skipn (N.to_nat n) (chain b)) (visible b - N.to_nat n).
(** [advance(n, into)] copies the first [n] bytes into [into], consumes them
    and returns [n]. *)
Definition advance (n : N) (into : MutableSlice) (b : ChainBuffer)
  : N * MutableSlice * ChainBuffer :=
  (n, firstn (N.to_nat n) (chain b) ++ skipn (N.to_nat n) into, confirm_read n b).

Inductive Event :=
| Ev_inc_refcnt
| Ev_dec_refcnt
| Ev_delete
| Ev_subscribe
| Ev_post (overlapped : Overlapped)
| Ev_WSAIoctl
| Ev_ConnectEx
| Ev_WSARecv
| Ev_WSASend (data : Slice).

Record SocketFdImpl := mkImpl {
  info : PollableFdInfo;
  refcnt_ : Z;
  close_flag_ : bool;
  is_connected_ : bool;
  is_read_active_ : bool;
  input_ : ChainBuffer;
  pending_errors_ : list Status;
  is_write_active_ : bool;
  is_write_waiting_ : bool;
  output_ : ChainBuffer
}.

(** The object, the completions the dispatcher still has to deliver for it,
    the number of times [delete this] ran, and the calls made so far. *)
Record World := mkWorld {
  impl : SocketFdImpl;
  posted : list Overlapped;
  deleted : nat;
  trace : list Event
}.

Definition on_impl (f : SocketFdImpl -> SocketFdImpl) : M World unit :=
  modify (fun w => mkWorld (f (impl w)) (posted w) (deleted w) (trace w)).

Definition set_info (f : PollableFdInfo -> PollableFdInfo) (o : SocketFdImpl) :=
  mkImpl (f (info o)) (refcnt_ o) (close_flag_ o) (is_connected_ o) (is_read_active_ o)
    (input_ o) (pending_errors_ o) (is_write_active_ o) (is_write_waiting_ o) (output_ o).
Definition set_refcnt (v : Z) (o : SocketFdImpl) :=
  mkImpl (info o) v (close_flag_ o) (is_connected_ o) (is_read_active_ o)
    (input_ o) (pending_errors_ o) (is_write_active_ o) (is_write_waiting_ o) (output_ o).
Definition set_close_flag (v : bool) (o : SocketFdImpl) :=
  mkImpl (info o) (refcnt_ o) v (is_connected_ o) (is_read_active_ o)
    (input_ o) (pending_errors_ o) (is_write_active_ o) (is_write_waiting_ o) (output_ o).
Definition set_is_connected (v : bool) (o : SocketFdImpl) :=
  mkImpl (info o) (refcnt_ o) (close_flag_ o) v (is_read_active_ o)
    (input_ o) (pending_errors_ o) (is_write_active_ o) (is_write_waiting_ o) (output_ o).
Definition set_is_read_active (v : bool) (o : SocketFdImpl) :=
  mkImpl (info o) (refcnt_ o) (close_flag_ o) (is_connected_ o) v
    (input_ o) (pending_errors_ o) (is_write_active_ o) (is_write_waiting_ o) (output_ o).
Definition set_input (f : ChainBuffer -> ChainBuffer) (o : SocketFdImpl) :=
  mkImpl (info o) (refcnt_ o) (close_flag_ o) (is_connected_ o) (is_read_active_ o)
    (f (input_ o)) (pending_errors_ o) (is_write_active_ o) (is_write_waiting_ o) (output_ o).
Definition set_pending_errors (v : list Status) (o : SocketFdImpl) :=
  mkImpl (info o) (refcnt_ o) (close_flag_ o) (is_connected_ o) (is_read_active_ o)
    (input_ o) v (is_write_active_ o) (is_write_waiting_ o) (output_ o).
Definition set_is_write_active (v : bool) (o : SocketFdImpl) :=
  mkImpl (info o) (refcnt_ o) (close_flag_ o) (is_connected_ o) (is_read_active_ o)
    (input_ o) (pending_errors_ o) v (is_write_waiting_ o) (output_ o).
Definition set_is_write_waiting (v : bool) (o : SocketFdImpl) :=
  mkImpl (info o) (refcnt_ o) (close_flag_ o) (is_connected_ o) (is_read_active_ o)
    (input_ o) (pending_errors_ o) (is_write_active_ o) v (output_ o).
Definition set_output (f : ChainBuffer -> ChainBuffer) (o : SocketFdImpl) :=
  mkImpl (info o) (refcnt_ o) (close_flag_ o) (is_connected_ o) (is_read_active_ o)
    (input_ o) (pending_errors_ o) (is_write_active_ o) (is_write_waiting_ o) (f (output_ o)).

Definition emit (e : Event) : M World unit :=
  modify (fun w => mkWorld (impl w) (posted w) (deleted w) (trace w ++ [e])).

Definition get_flags (w : World) : PollFlags.t := flags (info (impl w)).
Definition add_flags (f : PollFlags.t) : M World unit := on_impl (set_info (info_add_flags f)).
Definition add_flags_from_poll (f : PollFlags.t) : M World unit :=
  on_impl (set_info (info_add_flags f)).
Definition clear_flags (f : PollFlags.t) : M World unit :=
  on_impl (set_info (info_clear_flags f)).

(** [std::atomic<int>]: increments and decrements wrap around. *)
Definition wrap_int (z : Z) : Z := (z + 2 ^ 31) mod 2 ^ 32 - 2 ^ 31.

(** *** The operating system and the dispatcher *)

(** The answer to an overlapped call: what the call returned and what
    [WSAGetLastError] says after it. *)
Record WsaCall := mkWsa { wsa_status : Z; wsa_last_error : Z }.

Definition ERROR_IO_PENDING : Z := 997.
Definition TRUE : Z := 1.

Definition OS_SOCKET_ERROR (os : WsaCall) (msg : string) : Status :=
  Error (mkError (wsa_last_error os) [Str msg]).

(** [Iocp::post(0, this, overlapped)]: the dispatcher will deliver it. *)
Definition Iocp_post (overlapped : Overlapped) : M World unit :=
  emit (Ev_post overlapped) ;;
  modify (fun w => mkWorld (impl w) (posted w ++ [overlapped]) (deleted w) (trace w)).

(** Modelled from the spec: the system calls are not part of the sources.  An
    overlapped operation that returns 0, or fails with ERROR_IO_PENDING, was
    taken by the system, which hands its completion to the dispatcher; any
    other answer leaves nothing behind.  For ConnectEx the code takes only the
    pending answer as a submission (see the constructor), and so does the
    model. *)
Definition taken (os : WsaCall) : bool :=
  (wsa_status os =? 0) || (wsa_last_error os =? ERROR_IO_PENDING).

Definition queue_completion (overlapped : Overlapped) : M World unit :=
  modify (fun w => mkWorld (impl w) (posted w ++ [overlapped]) (deleted w) (trace w)).

Definition WSARecv (os : WsaCall) : M World Z :=
  emit Ev_WSARecv ;;
  (if taken os then queue_completion read_overlapped_ else ret tt) ;;
  ret (wsa_status os).

Definition WSASend (data : Slice) (os : WsaCall) : M World Z :=
  emit (Ev_WSASend data) ;;
  (if taken os then queue_completion write_overlapped_ else ret tt) ;;
  ret (wsa_status os).

Definition ConnectEx (os : WsaCall) : M World Z :=
  emit Ev_ConnectEx ;;
  (if negb (wsa_status os =? TRUE) && (wsa_last_error os =? ERROR_IO_PENDING)
   then queue_completion read_overlapped_ else ret tt) ;;
  ret (wsa_status os).

(** *** The methods of [SocketFdImpl] *)

(** [dec_refcnt]: [delete this] when the count reaches zero. *)
Definition dec_refcnt : M World bool :=
  w <- get ;;
  let r := wrap_int (refcnt_ (impl w) - 1) in
  on_impl (set_refcnt r) ;;
  emit Ev_dec_refcnt ;;
  if r =? 0 then
    modify (fun w => mkWorld (impl w) (posted w) (S (deleted w)) (trace w)) ;;
    emit Ev_delete ;;
    ret true
  else ret false.

Definition inc_refcnt : M World unit :=
  w <- get ;;
  CHECK "refcnt_ != 0" (negb (refcnt_ (impl w) =? 0)) ;;
  on_impl (set_refcnt (wrap_int (refcnt_ (impl w) + 1))) ;;
  emit Ev_inc_refcnt.

Definition notify_iocp_write : M World unit :=
  inc_refcnt ;;
  Iocp_post nullptr.

Definition notify_iocp_close : M World unit :=
  Iocp_post close_overlapped_.

Definition notify_iocp_connected : M World unit :=
  inc_refcnt ;;
  Iocp_post read_overlapped_.

(** [on_error]: the queue is a [VectorQueue<Status>] (VectorQueue.h is not
    part of the sources): [push] at the back, [pop] from the front. *)
Definition on_error (status : Status) : M World unit :=
  on_impl (fun o => set_pending_errors (pending_errors_ o ++ [status]) o) ;;
  add_flags_from_poll PollFlags.Error.

Definition check_status (message : string) (os : WsaCall) : M World bool :=
  let last_error := wsa_last_error os in
  if last_error =? ERROR_IO_PENDING then ret true
  else
    on_error (OS_SOCKET_ERROR os message) ;;
    ret false.

(** [a || check_status(...)], with the short circuit of C++. *)
Definition or_check_status (a : bool) (message : string) (os : WsaCall) : M World bool :=
  if a then ret true else check_status message os.

(** Modelled from the spec: misc.h is not part of the sources.
    [narrow_cast<ULONG>] is the checked cast of tdutils: it terminates the
    process when the value does not fit the 32 bits of a ULONG. *)
Definition ULONG_MAX : N := 4294967295.

Definition narrow_cast_ULONG (n : N) : M World N :=
  CHECK "narrow_cast" (n <=? ULONG_MAX)%N ;;
  ret n.

(** The bytes a [WSABUF] designates: the first [len] bytes at [buf]. *)
Definition WSABUF (len : N) (buf : Slice) : Slice := firstn (N.to_nat len) buf.

(** [loop_read]: the area handed to WSARecv is [input_writer_.prepare_append()],
    which changes nothing until [confirm_append].  The writer side of the
    buffer chooses that area (buffer.h is not part of the sources): the area
    and the narrowing of its length to ULONG do not appear here, and what the
    system stored in the area is the [region] argument of [on_read]. *)
Definition loop_read (os : WsaCall) : M World unit :=
  w <- get ;;
  CHECK "is_connected_" (is_connected_ (impl w)) ;;
  CHECK "!is_read_active_" (negb (is_read_active_ (impl w))) ;;
  if close_flag_ (impl w) then ret tt
  else
    status <- WSARecv os ;;
    ok <- or_check_status (status =? 0) "Failed to read from connection" os ;;
    if ok then
      inc_refcnt ;;
      on_impl (set_is_read_active true)
    else ret tt.

Definition is_nil {A} (l : list A) : bool :=
  match l with [] => true | _ => false end.

(** The tail of [loop_write], from the last [if (to_write.empty())] on. *)
Definition loop_write_send (to_write : Slice) (os : WsaCall) : M World unit :=
  if is_nil to_write then ret tt
  else
    w <- get ;;
    let dest := prepare_read (output_ (impl w)) in
    len <- narrow_cast_ULONG (size dest) ;;
    status <- WSASend (WSABUF len dest) os ;;
    ok <- or_check_status (status =? 0) "Failed to write to connection" os ;;
    if ok then
      inc_refcnt ;;
      on_impl (set_is_write_active true)
    else ret tt.

Definition loop_write (os : WsaCall) : M World unit :=
  w <- get ;;
  CHECK "is_connected_" (is_connected_ (impl w)) ;;
  CHECK "!is_write_active_" (negb (is_write_active_ (impl w))) ;;
  on_impl (set_output sync_with_writer) ;;
  w <- get ;;
  let to_write := prepare_read (output_ (impl w)) in
  if is_nil to_write then
    let to_write := prepare_read (output_ (impl w)) in
    if is_nil to_write then on_impl (set_is_write_waiting true)
    else loop_write_send to_write os
  else loop_write_send to_write os.

Definition on_connected (os_recv os_send : WsaCall) : M World unit :=
  w <- get ;;
  CHECK "!is_connected_" (negb (is_connected_ (impl w))) ;;
  CHECK "is_read_active_" (is_read_active_ (impl w)) ;;
  on_impl (set_is_connected true) ;;
  on_impl (set_is_read_active false) ;;
  loop_read os_recv ;;
  loop_write os_send.

(** [region] is what the system stored in the area handed to WSARecv. *)
Definition on_read (size : N) (region : list Byte.byte) (os_recv : WsaCall) : M World unit :=
  w <- get ;;
  CHECK "is_read_active_" (is_read_active_ (impl w)) ;;
  on_impl (set_is_read_active false) ;;
  if (size =? 0)%N then
    add_flags_from_poll PollFlags.Close
  else
    on_impl (set_input (confirm_append size region)) ;;
    add_flags_from_poll PollFlags.Read ;;
    loop_read os_recv.

Definition on_write (size : N) (os_send : WsaCall) : M World unit :=
  let after_size_check :=
    w <- get ;;
    CHECK "is_write_active_" (is_write_active_ (impl w)) ;;
    on_impl (set_is_write_active false) ;;
    on_impl (set_output (confirm_read size)) ;;
    loop_write os_send in
  w <- get ;;
  if (size =? 0)%N then
    if is_write_active_ (impl w) then ret tt
    else
      on_impl (set_is_write_active true) ;;
      after_size_check
  else after_size_check.

Definition on_close : M World unit :=
  on_impl (set_close_flag true) ;;
  on_impl (set_info (info_set_native_fd empty_fd)).

(** [on_iocp], the callback of the dispatcher. *)
Definition on_iocp (r_size : Result N) (overlapped : Overlapped)
    (region : list Byte.byte) (os_recv os_send : WsaCall) : M World unit :=
  gone <- dec_refcnt ;;
  w <- get ;;
  if gone || close_flag_ (impl w) then ret tt
  else
    match r_size with
    | Err e => on_error (Error e)
    | Ok size =>
        if negb (is_connected_ (impl w)) && Overlapped_eqb overlapped read_overlapped_ then
          on_connected os_recv os_send
        else if Overlapped_eqb overlapped write_overlapped_ then
          on_write size os_send
        else if Overlapped_eqb overlapped nullptr then
          CHECK "size == 0" (size =? 0)%N ;;
          on_write size os_send
        else if Overlapped_eqb overlapped read_overlapped_ then
          on_read size region os_recv
        else if Overlapped_eqb overlapped close_overlapped_ then
          on_close
        else abort Unreachable
    end.

Definition close : M World unit := notify_iocp_close.

Definition write (data : Slice) : M World (Result N) :=
  on_impl (set_output (append data)) ;;
  w <- get ;;
  (if is_write_waiting_ (impl w) then
     on_impl (set_is_write_waiting false) ;;
     notify_iocp_write
   else ret tt) ;;
  ret (Ok (size data)).

Definition get_pending_error : M World Status :=
  w <- get ;;
  res <- match pending_errors_ (impl w) with
         | [] => ret OK
         | e :: rest => on_impl (set_pending_errors rest) ;; ret e
         end ;;
  (if is_ok res then clear_flags PollFlags.Error else ret tt) ;;
  ret res.

(** [read]: the second component is the caller's buffer after the call. *)
Definition read (slice : MutableSlice) : M World (Result N * MutableSlice) :=
  w <- get ;;
  s <- (if PollFlags.has_pending_error (get_flags w) then get_pending_error else ret OK) ;;
  match s with
  | Error e => ret (Err e, slice)
  | OK =>
      on_impl (set_input sync_with_writer) ;;
      w <- get ;;
      let '(res, slice', input') :=
        advance (N.min (size slice) (reader_size (input_ (impl w)))) slice (input_ (impl w)) in
      on_impl (set_input (fun _ => input')) ;;
      (if (res =? 0)%N then clear_flags PollFlags.Read else ret tt) ;;
      ret (Ok res, slice')
  end.

(** The members as their initialisers leave them. *)
Definition fresh (native_fd : NativeFd) : World :=
  mkWorld (mkImpl (mkInfo native_fd PollFlags.empty) 1 false false false
             buf_empty [] false false buf_empty) [] 0 [].

(** [SocketFdImpl(NativeFd)] *)
Definition SocketFdImpl_adopt : M World unit :=
  add_flags PollFlags.Write ;;
  emit Ev_subscribe ;;
  on_impl (set_is_read_active true) ;;
  notify_iocp_connected.

(** [SocketFdImpl(NativeFd, const IPAddress &)] *)
Definition SocketFdImpl_connect (ioctl connect : WsaCall) : M World unit :=
  add_flags PollFlags.Write ;;
  emit Ev_subscribe ;;
  emit Ev_WSAIoctl ;;
  if negb (wsa_status ioctl =? 0) then
    on_error (OS_SOCKET_ERROR ioctl "WSAIoctl failed")
  else
    inc_refcnt ;;
    on_impl (set_is_read_active true) ;;
    status <- ConnectEx connect ;;
    failed <- (if status =? TRUE then ret true
               else ok <- check_status "Failed to connect" connect ;; ret (negb ok)) ;;
    if failed then
      on_impl (set_is_read_active false) ;;
      _ <- dec_refcnt ;;
      ret tt
    else ret tt.

(** *** The handle and the life of one socket *)

(** [handle] says whether [SocketFd::impl_] still points to the object. *)
Record System := mkSystem { handle : bool; world : World }.

(** The answers of the operating system during [SocketFd::open]. *)
Record OpenOs := mkOpenOs {
  socket_call : Syscall;
  options : OptionsOs;
  bind_call : WsaCall;
  ioctl_call : WsaCall;
  connect_call : WsaCall
}.

Definition construct (m : M World unit) (native_fd : NativeFd) : Outcome (Result System) :=
  match m (fresh native_fd) with
  | Done (_, w) => Done (Ok (mkSystem true w))
  | Fatal why => Fatal why
  end.

(** [SocketFd::from_native_fd] *)
Definition from_native_fd (fd : NativeFd) (os : OptionsOs) : Outcome (Result System) :=
  match init_socket_options fd os with
  | Error e => Done (Err e)
  | OK => construct SocketFdImpl_adopt fd
  end.

(** [SocketFd::open], the TD_PORT_WINDOWS branch. *)
Definition open (address : IPAddress) (os : OpenOs) : Outcome (Result System) :=
  let native_fd : NativeFd := sys_ret (socket_call os) in
  if negb (NativeFd_bool native_fd) then
    Done (Err (mkError (sys_errno (socket_call os)) [Str "Failed to create a socket"]))
  else
    match init_socket_options native_fd (options os) with
    | Error e => Done (Err e)
    | OK =>
        if negb (wsa_status (bind_call os) =? 0) then
          Done (Err (mkError (wsa_last_error (bind_call os)) [Str "Failed to bind a socket"]))
        else construct (SocketFdImpl_connect (ioctl_call os) (connect_call os)) native_fd
    end.

Fixpoint remove_nth {A} (i : nat) (l : list A) : list A :=
  match l, i with
  | [], _ => []
  | _ :: l', O => l'
  | x :: l', S i' => x :: remove_nth i' l'
  end.

Definition take (i : nat) (w : World) : World :=
  mkWorld (impl w) (remove_nth i (posted w)) (deleted w) (trace w).

(** One step of the life of a socket: a call through the handle, or the
    dispatcher delivering one of the outstanding completions. *)
Inductive step : System -> System -> Prop :=
| step_write s data r w' :
    handle s = true ->
    write data (world s) = Done (r, w') ->
    step s (mkSystem true w')
| step_read s slice r w' :
    handle s = true ->
    read slice (world s) = Done (r, w') ->
    step s (mkSystem true w')
| step_get_pending_error s r w' :
    handle s = true ->
    get_pending_error (world s) = Done (r, w') ->
    step s (mkSystem true w')
| step_close s w' :
    handle s = true ->
    close (world s) = Done (tt, w') ->
    step s (mkSystem false w')
| step_on_iocp s i overlapped r_size region os_recv os_send w' :
    nth_error (posted (world s)) i = Some overlapped ->
    on_iocp r_size overlapped region os_recv os_send (take i (world s)) = Done (tt, w') ->
    step s (mkSystem (handle s) w').

Inductive steps : System -> System -> Prop :=
| steps_refl s : steps s s
| steps_step s1 s2 s3 : steps s1 s2 -> step s2 s3 -> steps s1 s3.

Inductive reachable : System -> Prop :=
| reachable_adopt fd w :
    SocketFdImpl_adopt (fresh fd) = Done (tt, w) ->
    reachable (mkSystem true w)
| reachable_connect fd ioctl connect w :
    SocketFdImpl_connect ioctl connect (fresh fd) = Done (tt, w) ->
    reachable (mkSystem true w)
| reachable_step s s' :
    reachable s -> step s s' -> reachable s'.

Definition count (o : Overlapped) (q : list Overlapped) : nat :=
  List.length (filter (Overlapped_eqb o) q).

Definition is_WSARecv (e : Event) : bool :=
  match e with Ev_WSARecv => true | _ => false end.

(** The reference count accounts for the handle and for every completion
    that is still to be delivered, and the object was deleted once if the
    count is zero and never otherwise. *)
Definition accounted (s : System) : Prop :=
  refcnt_ (impl (world s)) =
    Z.of_nat (List.length (posted (world s))) + Z.b2z (handle s) /\
  deleted (world s) = if refcnt_ (impl (world s)) =? 0 then 1%nat else 0%nat.

(** At most one completion per direction is outstanding, and the flags of the
    object agree with them. *)
Definition outstanding_ok (s : System) : Prop :=
  let o := impl (world s) in
  let q := posted (world s) in
  (count read_overlapped_ q <= 1)%nat /\
  (is_read_active_ o = false -> count read_overlapped_ q = 0%nat) /\
  (count write_overlapped_ q + count nullptr q <= 1)%nat /\
  (is_write_waiting_ o = true -> (count write_overlapped_ q + count nullptr q = 0)%nat) /\
  (is_connected_ o = false ->
     (count write_overlapped_ q + count nullptr q = 0)%nat /\ is_write_waiting_ o = false) /\
  (count close_overlapped_ q <= 1)%nat /\
  (handle s = true -> count close_overlapped_ q = 0%nat) /\
  count foreign_overlapped q = 0%nat.

Definition Inv (s : System) : Prop := accounted s /\ outstanding_ok s.

(** The calls recorded in [t2] are those of [t1] followed by calls none of
    which is a WSARecv. *)
Definition no_read_since (t1 t2 : list Event) : Prop :=
  exists l, t2 = t1 ++ l /\ existsb is_WSARecv l = false.

(** The state a socket is in after its stream ended. *)
Definition read_ended (s : System) : Prop :=
  is_connected_ (impl (world s)) = true /\
  count read_overlapped_ (posted (world s)) = 0%nat /\
  PollFlags.close (flags (info (impl (world s)))) = true.

End Iocp.

(** ** Notions used by the further properties *)

(** Report the errors [es] one after the other, as completions do through
    [on_error]. *)
Fixpoint report_all (es : list ErrorInfo) : M Iocp.World unit :=
  match es with
  | [] => ret tt
  | e :: es' => Iocp.on_error (Error e) ;; report_all es'
  end.

(** Call [get_pending_error] [n] times and collect what it returns. *)
Fixpoint drain (n : nat) : M Iocp.World (list Status) :=
  match n with
  | O => ret []
  | S n' =>
      s <- Iocp.get_pending_error ;;
      rest <- drain n' ;;
      ret (s :: rest)
  end.


(** Two calls of [read], one after the other. *)
Definition read_twice (slice1 slice2 : MutableSlice)
  : M Iocp.World ((Result N * MutableSlice) * (Result N * MutableSlice)) :=
  r1 <- Iocp.read slice1 ;;
  r2 <- Iocp.read slice2 ;;
  ret (r1, r2).

Definition is_io (e : Iocp.Event) : bool :=
  match e with
  | Iocp.Ev_WSARecv | Iocp.Ev_WSASend _ | Iocp.Ev_ConnectEx => true
  | _ => false
  end.

(** The calls recorded in [t2] are those of [t1] followed by calls none of
    which hands an operation to the system. *)
Definition no_io_since (t1 t2 : list Iocp.Event) : Prop :=
  exists l, t2 = t1 ++ l /\ existsb is_io l = false.

(** What the CHECKs of the callbacks rely on, beyond [Iocp.Inv]. *)
Definition checks_hold (s : Iocp.System) : Prop :=
  let o := Iocp.impl (Iocp.world s) in
  let q := Iocp.posted (Iocp.world s) in
  (Iocp.is_connected_ o = false -> Iocp.is_write_active_ o = false) /\
  (Iocp.is_write_active_ o = false -> Iocp.count Iocp.write_overlapped_ q = 0%nat) /\
  (Iocp.handle s = true -> Iocp.close_flag_ o = false) /\
  (Iocp.is_write_waiting_ o = true -> Iocp.is_write_active_ o = false) /\
  (Iocp.is_write_waiting_ o = true -> Iocp.chain (Iocp.output_ o) = []).

Definition is_WSASend (e : Iocp.Event) : bool :=
  match e with Iocp.Ev_WSASend _ => true | _ => false end.

(** The calls recorded in [t2] are those of [t1] followed by calls none of
    which is a WSASend. *)
Definition no_send_since (t1 t2 : list Iocp.Event) : Prop :=
  exists l, t2 = t1 ++ l /\ existsb is_WSASend l = false.

(** A connected socket whose writer is neither parked nor waiting for a
    completion. *)
Definition write_idle (s : Iocp.System) : Prop :=
  Iocp.is_connected_ (Iocp.impl (Iocp.world s)) = true /\
  Iocp.is_write_waiting_ (Iocp.impl (Iocp.world s)) = false /\
  (Iocp.count Iocp.write_overlapped_ (Iocp.posted (Iocp.world s)) +
   Iocp.count Iocp.nullptr (Iocp.posted (Iocp.world s)) = 0)%nat.

(** A socket that is not connected and has no connect completion to wait
    for. *)
Definition never_connected (s : Iocp.System) : Prop :=
  Iocp.is_connected_ (Iocp.impl (Iocp.world s)) = false /\
  Iocp.count Iocp.read_overlapped_ (Iocp.posted (Iocp.world s)) = 0%nat.

(** No read or connect completion is outstanding. *)
Definition read_idle (s : Iocp.System) : Prop :=
  Iocp.count Iocp.read_overlapped_ (Iocp.posted (Iocp.world s)) = 0%nat.

(** The fields of the object that a completion ignored by [on_iocp] leaves
    alone: everything but the reference count. *)
Definition same_but_refcnt (a b : Iocp.SocketFdImpl) : Prop :=
  Iocp.set_refcnt 0 a = Iocp.set_refcnt 0 b.

(** ** Sample sockets *)

(** A socket with descriptor 7 and the given flags, before any call. *)
Definition posix_socket (f : PollFlags.t) : Posix.World :=
  Posix.mkWorld (Posix.mkImpl (mkInfo 7 f)) [].

Definition all_flags : PollFlags.t := PollFlags.mk true true true true.

Definition hello : Slice := [Byte.x68; Byte.x65; Byte.x6c; Byte.x6c; Byte.x6f].

Definition localhost : IPAddress := mkAddr 2 "127.0.0.1:80".

(** Every option call fails except the switch to non-blocking mode. *)
Definition options_refused : OptionsOs := mkOptionsOs OK (-1) (-1) (-1).

(** The answer "operation pending" of an overlapped call. *)
Definition pending : Iocp.WsaCall := Iocp.mkWsa (-1) Iocp.ERROR_IO_PENDING.

Definition run_world (m : M Iocp.World unit) (w : Iocp.World) : Iocp.World :=
  match m w with
  | Done (_, w') => w'
  | Fatal _ => w
  end.

(** A socket adopted from descriptor 7. *)
Definition adopted : Iocp.World :=
  Eval vm_compute in run_world Iocp.SocketFdImpl_adopt (Iocp.fresh 7).

(** The same socket once the "connected" notification was delivered: a read
    is outstanding and the writer is parked. *)
Definition connected : Iocp.World :=
  Eval vm_compute in
    run_world (Iocp.on_iocp (Ok 0%N) Iocp.read_overlapped_ [] pending pending)
      (Iocp.take 0 adopted).

(** ... once that read completed with 0 bytes ... *)
Definition ended : Iocp.World :=
  Eval vm_compute in
    run_world (Iocp.on_iocp (Ok 0%N) Iocp.read_overlapped_ [] pending pending)
      (Iocp.take 0 connected).

(** ... and once five bytes were written after that. *)
Definition ended_written : Iocp.World :=
  Eval vm_compute in run_world (_ <- Iocp.write hello ;; ret tt) ended.

(** A socket with the Error flag latched and one error in the queue. *)
Definition failed : Iocp.World :=
  Eval vm_compute in
    run_world (Iocp.on_iocp (Err (mkError 10054 [Str "reset"])) Iocp.read_overlapped_ []
                 pending pending)
      (Iocp.take 0 connected).

(** A connected socket with ten bytes staged for the reader. *)
Definition staged : Iocp.World :=
  Eval vm_compute in
    run_world (Iocp.on_iocp (Ok 10%N) Iocp.read_overlapped_ (hello ++ hello) pending pending)
      (Iocp.take 0 connected).

(** The same socket after its next read failed: ten bytes staged, Readable
    set, the Error flag latched and one error in the queue. *)
Definition staged_failed : Iocp.World :=
  Eval vm_compute in
    run_world (Iocp.on_iocp (Err (mkError 10054 [Str "reset"])) Iocp.read_overlapped_ []
                 pending pending)
      (Iocp.take 0 staged).

Definition four_bytes : MutableSlice := [Byte.x00; Byte.x00; Byte.x00; Byte.x00].

(** The connected socket after the handle closed it ... *)
Definition closing : Iocp.World :=
  Eval vm_compute in run_world Iocp.close connected.

(** ... after its close notification was delivered ... *)
Definition closed : Iocp.World :=
  Eval vm_compute in
    run_world (Iocp.on_iocp (Ok 0%N) Iocp.close_overlapped_ [] pending pending)
      (Iocp.take 1 closing).

(** ... and after the read that was outstanding came back. *)
Definition released : Iocp.World :=
  Eval vm_compute in
    run_world (Iocp.on_iocp (Ok 0%N) Iocp.read_overlapped_ [] pending pending)
      (Iocp.take 0 closed).

(** The connected socket with five bytes written and the wake-up delivered:
    a write of these five bytes is outstanding. *)
Definition sending : Iocp.World :=
  Eval vm_compute in
    run_world (Iocp.on_iocp (Ok 0%N) Iocp.nullptr [] pending pending)
      (Iocp.take 1 (run_world (_ <- Iocp.write hello ;; ret tt) connected)).

(** The same socket after the handle closed it and the close notification
    was delivered: a read and a write are still outstanding. *)
Definition sending_closed : Iocp.World :=
  Eval vm_compute in
    run_world (Iocp.on_iocp (Ok 0%N) Iocp.close_overlapped_ [] pending pending)
      (Iocp.take 2 (run_world Iocp.close sending)).

(** An answer that refuses the operation (WSAECONNREFUSED). *)
Definition refused : Iocp.WsaCall := Iocp.mkWsa 0 10061.

(** WSARecv or WSASend failing at once (SOCKET_ERROR, WSAECONNRESET). *)
Definition connection_reset : Iocp.WsaCall := Iocp.mkWsa (-1) 10054.

(** An object whose ConnectEx was refused at once. *)
Definition unconnected : Iocp.World :=
  Eval vm_compute in
    run_world (Iocp.SocketFdImpl_connect (Iocp.mkWsa 0 0) refused) (Iocp.fresh 7).

(** * Properties *)



Ltac run :=
  cbv beta delta [bind get modify ret abort CHECK TRY_STATUS
                  Posix.emit Posix.clear_flags Posix.add_flags] iota.

(** ** Readiness backend *)

Lemma mem_In x l : mem x l = true <-> In x l.
Proof.
  unfold mem. rewrite existsb_exists. split.
  - intros [y [Hy Heq]]. apply Z.eqb_eq in Heq. now subst.
  - intros H. exists x. split; [assumption | apply Z.eqb_refl].
Qed.

Lemma mem_not_In x l : mem x l = false <-> ~ In x l.
Proof.
  rewrite <- mem_In. destruct (mem x l); split; intros; congruence.
Qed.

Lemma would_block_false (a b c : Z) :
  a <> b -> a <> c -> (a =? b) || (a =? c) = false.
Proof.
  intros Hb Hc. apply orb_false_iff. split; now apply Z.eqb_neq.
Qed.

Lemma would_block_true (a b c : Z) :
  a = b \/ a = c -> (a =? b) || (a =? c) = true.
Proof.
  intros [H | H]; subst; rewrite Z.eqb_refl; [reflexivity | apply orb_true_r].
Qed.

(** *** write *)

(** C6, as amended: a failing write on the readiness backend is classified by
    errno.  The would-block codes clear Writable and give 0 as success.
    EBADF, ENXIO, EFAULT and EINVAL terminate the process.  Every other code
    clears Writable, sets Closed and comes back as the error of the call; a
    warning is logged for it only when it is not one of the eight listed
    connection errors. *)
Theorem posix_write_failure_classified (E : Errno) (slice : Slice) (os : Syscall)
    (w : Posix.World) :
  sys_ret os < 0 ->
  let errno := sys_errno os in
  let fd := Posix.get_native_fd (Posix.impl w) in
  let f := Posix.get_flags w in
  let called := Posix.trace w ++ [Posix.Sys_write fd (size slice)] in
  let error := Posix.PosixError errno [Str "Write to fd "; Num fd; Str " has failed"] in
  (errno = EAGAIN E \/ errno = EWOULDBLOCK E ->
     Posix.write E slice os w =
     Done (Ok 0%N, Posix.mkWorld (Posix.mkImpl (mkInfo fd (PollFlags.diff f PollFlags.Write)))
                     called)) /\
  (errno <> EAGAIN E -> errno <> EWOULDBLOCK E ->
     In errno [EBADF E; ENXIO E; EFAULT E; EINVAL E] ->
     Posix.write E slice os w = Fatal (LogFatal error)) /\
  (errno <> EAGAIN E -> errno <> EWOULDBLOCK E ->
     ~ In errno [EBADF E; ENXIO E; EFAULT E; EINVAL E] ->
     Posix.write E slice os w =
     Done (Err error,
           Posix.mkWorld
             (Posix.mkImpl
                (mkInfo fd (PollFlags.union (PollFlags.diff f PollFlags.Write) PollFlags.Close)))
             (called ++
              if mem errno [ECONNRESET E; EDQUOT E; EFBIG E; EIO E; ENETDOWN E;
                            ENETUNREACH E; ENOSPC E; EPIPE E]
              then [] else [Posix.LogWarning error]))).
Proof.
  intros Hneg errno fd f called error.
  assert (Hres : (0 <=? sys_ret os) = false) by (apply Z.leb_gt; exact Hneg).
  unfold Posix.write, Posix.write_fatal, Posix.write_known. run. cbv zeta.
  rewrite Hres. fold errno.
  destruct w as [[[nfd fl]] tr].
  repeat split.
  - intros Hwb. rewrite (would_block_true _ _ _ Hwb). reflexivity.
  - intros H1 H2 Hfatal. rewrite (would_block_false _ _ _ H1 H2).
    apply mem_In in Hfatal. rewrite Hfatal. reflexivity.
  - intros H1 H2 Hfatal. rewrite (would_block_false _ _ _ H1 H2).
    apply mem_not_In in Hfatal. rewrite Hfatal.
    destruct (mem errno [ECONNRESET E; EDQUOT E; EFBIG E; EIO E; ENETDOWN E;
                         ENETUNREACH E; ENOSPC E; EPIPE E]).
    + subst called. rewrite app_nil_r. reflexivity.
    + reflexivity.
Qed.

Lemma posix_write_failure_classified_witness :
  Posix.write linux hello (mkSys (-1) (ENOTCONN linux)) (posix_socket all_flags) =
  Done (Err (mkError 107 [Str "Write to fd "; Num 7; Str " has failed"]),
        Posix.mkWorld (Posix.mkImpl (mkInfo 7 (PollFlags.mk false true true true)))
          [Posix.Sys_write 7 5;
           Posix.LogWarning (mkError 107 [Str "Write to fd "; Num 7; Str " has failed"])]).
Proof.
  refine (proj2 (proj2 (posix_write_failure_classified linux hello
                          (mkSys (-1) (ENOTCONN linux)) (posix_socket all_flags) _)) _ _ _);
    simpl; lia.
Defined.

(** C6 as stated does not hold: EPIPE is neither would-block nor fatal, and
    the write that fails with it logs nothing. *)
Lemma posix_write_EPIPE_not_logged :
  Posix.write linux hello (mkSys (-1) (EPIPE linux)) (posix_socket all_flags) =
  Done (Err (mkError 32 [Str "Write to fd "; Num 7; Str " has failed"]),
        Posix.mkWorld (Posix.mkImpl (mkInfo 7 (PollFlags.mk false true true true)))
          [Posix.Sys_write 7 5]) /\
  existsb Posix.is_warning [Posix.Sys_write 7 5] = false.
Proof. split; reflexivity. Qed.

(** *** get_pending_error *)

(** C3, as amended: without the latched flag the call returns OK and asks the
    system nothing.  With the flag it asks for the socket error once; when
    the system reports none the flag is cleared and OK returned; when it
    reports an error, or the query itself fails, that error is returned and
    the flag stays latched, so that a second call asks again and returns OK
    when the system then reports none. *)
Theorem posix_get_pending_error_latch (os os2 : Getsockopt) (w : Posix.World) :
  let fd := Posix.get_native_fd (Posix.impl w) in
  let f := Posix.get_flags w in
  let asked := Posix.trace w ++ [Posix.Sys_getsockopt fd] in
  (PollFlags.has_pending_error f = false ->
     Posix.get_pending_error os w = Done (OK, w)) /\
  (PollFlags.has_pending_error f = true -> gso_ret os = 0 -> gso_error os = 0 ->
     Posix.get_pending_error os w =
     Done (OK, Posix.mkWorld (Posix.mkImpl (mkInfo fd (PollFlags.diff f PollFlags.Error)))
                 asked)) /\
  (PollFlags.has_pending_error f = true -> gso_ret os = 0 -> gso_error os <> 0 ->
     Posix.get_pending_error os w =
     Done (Error (Posix.PosixError (gso_error os)
                    [Str "Error on socket [fd_ = "; Num fd; Str "]"]),
           Posix.mkWorld (Posix.impl w) asked)) /\
  (PollFlags.has_pending_error f = true -> gso_ret os <> 0 ->
     let status := Posix.PosixError (gso_errno os)
                     [Str "Can't load error on socket [fd_ = "; Num fd; Str "]"] in
     Posix.get_pending_error os w =
     Done (Error status, Posix.mkWorld (Posix.impl w) (asked ++ [Posix.LogInfo status]))) /\
  (PollFlags.has_pending_error f = true -> gso_ret os = 0 -> gso_error os <> 0 ->
   gso_ret os2 = 0 -> gso_error os2 = 0 ->
     (Posix.get_pending_error os ;; Posix.get_pending_error os2) w =
     Done (OK, Posix.mkWorld (Posix.mkImpl (mkInfo fd (PollFlags.diff f PollFlags.Error)))
                 (asked ++ [Posix.Sys_getsockopt fd]))).
Proof.
  destruct w as [[[nfd fl]] tr]. cbv zeta.
  unfold Posix.get_pending_error, Posix.get_socket_pending_error, Posix.get_flags,
    Posix.get_native_fd. run. simpl.
  repeat split.
  - intros H. rewrite H. reflexivity.
  - intros H Hret Herr. rewrite H, Hret, Herr. reflexivity.
  - intros H Hret Herr. apply Z.eqb_neq in Herr. rewrite H, Hret, Herr. reflexivity.
  - intros H Hret. apply Z.eqb_neq in Hret. rewrite H, Hret. reflexivity.
  - intros H Hret Herr Hret2 Herr2. apply Z.eqb_neq in Herr.
    rewrite H, Hret, Herr. simpl. rewrite H, Hret2, Herr2. reflexivity.
Qed.

Lemma posix_get_pending_error_latch_witness :
  Posix.get_pending_error (mkGso 0 0 0) (posix_socket all_flags) =
  Done (OK, Posix.mkWorld (Posix.mkImpl (mkInfo 7 (PollFlags.mk true true true false)))
              [Posix.Sys_getsockopt 7]).
Proof.
  exact (proj1 (proj2 (posix_get_pending_error_latch (mkGso 0 0 0) (mkGso 0 0 0)
                         (posix_socket all_flags))) eq_refl eq_refl eq_refl).
Defined.

(** C3 as stated does not hold: the call that returns the error of the socket
    (here ECONNRESET) leaves the Error flag latched. *)
Lemma posix_get_pending_error_keeps_flag :
  Posix.get_pending_error (mkGso 0 104 0) (posix_socket all_flags) =
  Done (Error (mkError 104 [Str "Error on socket [fd_ = "; Num 7; Str "]"]),
        Posix.mkWorld (Posix.mkImpl (mkInfo 7 all_flags)) [Posix.Sys_getsockopt 7]) /\
  PollFlags.has_pending_error all_flags = true.
Proof. split; reflexivity. Qed.

(** *** read *)




(** ** Completion backend *)

(** *** Counting the outstanding completions *)

Lemma count_app o q1 q2 :
  Iocp.count o (q1 ++ q2) = (Iocp.count o q1 + Iocp.count o q2)%nat.
Proof.
  unfold Iocp.count. rewrite filter_app, length_app. reflexivity.
Qed.

Lemma count_nil o : Iocp.count o [] = 0%nat.
Proof. reflexivity. Qed.

Lemma count_one o t :
  Iocp.count o [t] = if Iocp.Overlapped_eqb o t then 1%nat else 0%nat.
Proof.
  unfold Iocp.count. simpl. destruct (Iocp.Overlapped_eqb o t); reflexivity.
Qed.

Lemma count_remove_nth o t i q :
  nth_error q i = Some t ->
  Iocp.count o q =
  (Iocp.count o (Iocp.remove_nth i q) + if Iocp.Overlapped_eqb o t then 1 else 0)%nat.
Proof.
  revert i. induction q as [| x q IH]; intros [| i] H; simpl in H; try discriminate.
  - injection H as ->. unfold Iocp.count. simpl.
    destruct (Iocp.Overlapped_eqb o t); simpl; lia.
  - specialize (IH i H). unfold Iocp.count in *. simpl.
    destruct (Iocp.Overlapped_eqb o x); simpl; lia.
Qed.

Lemma length_remove_nth (t : Iocp.Overlapped) i q :
  nth_error q i = Some t ->
  List.length q = S (List.length (Iocp.remove_nth i q)).
Proof.
  revert i. induction q as [| x q IH]; intros [| i] H; simpl in H; try discriminate.
  - reflexivity.
  - simpl. f_equal. apply IH. exact H.
Qed.

Lemma length_counts q :
  List.length q =
  (Iocp.count Iocp.read_overlapped_ q + Iocp.count Iocp.write_overlapped_ q +
   Iocp.count Iocp.nullptr q + Iocp.count Iocp.close_overlapped_ q +
   Iocp.count Iocp.foreign_overlapped q)%nat.
Proof.
  induction q as [| x q IH]; [reflexivity |].
  unfold Iocp.count in *. destruct x; simpl; lia.
Qed.

Lemma wrap_int_small z :
  - 2 ^ 31 <= z < 2 ^ 31 -> Iocp.wrap_int z = z.
Proof.
  intros H. unfold Iocp.wrap_int. rewrite Z.mod_small; lia.
Qed.

(** *** Running the methods on a symbolic object *)

Unset Lia Cache.

(** Split [H] on the innermost test it is stuck on. *)
Ltac break_hyp H :=
  match type of H with
  | context [match ?c with _ => _ end] =>
      lazymatch c with
      | context [match _ with _ => _ end] => fail
      | _ => destruct c eqn:?
      end
  end.

(** Unfold the methods of the object in [H], down to the tests on its fields
    and on the answers of the system. *)
Ltac unfold_methods H :=
  cbv beta iota zeta delta
    [bind get modify ret abort CHECK
     Iocp.on_iocp Iocp.dec_refcnt Iocp.inc_refcnt Iocp.on_error Iocp.on_connected
     Iocp.on_read Iocp.on_write Iocp.on_close
     Iocp.loop_read Iocp.loop_write Iocp.loop_write_send Iocp.check_status
     Iocp.or_check_status
     Iocp.narrow_cast_ULONG
     Iocp.WSARecv Iocp.WSASend Iocp.ConnectEx Iocp.queue_completion Iocp.Iocp_post Iocp.taken
     Iocp.notify_iocp_write Iocp.notify_iocp_close Iocp.notify_iocp_connected
     Iocp.on_impl Iocp.emit Iocp.add_flags Iocp.add_flags_from_poll Iocp.clear_flags
     Iocp.set_info Iocp.set_refcnt Iocp.set_close_flag Iocp.set_is_connected
     Iocp.set_is_read_active Iocp.set_input
     Iocp.set_pending_errors Iocp.set_is_write_active Iocp.set_is_write_waiting Iocp.set_output
     Iocp.impl Iocp.posted Iocp.deleted Iocp.trace
     Iocp.info Iocp.refcnt_ Iocp.close_flag_ Iocp.is_connected_ Iocp.is_read_active_
     Iocp.input_ Iocp.pending_errors_
     Iocp.is_write_active_ Iocp.is_write_waiting_ Iocp.output_ Iocp.take
     Iocp.write Iocp.read Iocp.get_pending_error Iocp.close Iocp.get_flags
     Iocp.SocketFdImpl_adopt Iocp.SocketFdImpl_connect Iocp.fresh
     Iocp.Overlapped_eqb negb andb orb
     fst snd] in H.

(** The counter stays far from the bounds of [int]. *)
Ltac unwrap_in H :=
  repeat match type of H with
         | context [Iocp.wrap_int ?z] => rewrite (wrap_int_small z) in H by lia
         end.

Ltac unwrap :=
  repeat match goal with
         | |- context [Iocp.wrap_int ?z] => rewrite (wrap_int_small z) by lia
         end.

Ltac bool_props :=
  repeat match goal with
         | H : (_ =? _) = true |- _ => apply Z.eqb_eq in H
         | H : (_ =? _) = false |- _ => apply Z.eqb_neq in H
         | H : (_ =? _)%N = true |- _ => apply N.eqb_eq in H
         | H : (_ =? _)%N = false |- _ => apply N.eqb_neq in H
         end.

Ltac use_imps :=
  repeat match goal with
         | H : ?x = ?x -> _ |- _ => specialize (H eq_refl)
         | H : true = false -> _ |- _ => clear H
         | H : false = true -> _ |- _ => clear H
         | H : _ /\ _ |- _ => destruct H
         end.

Ltac subst_bools :=
  repeat match goal with
         | H : ?b = true |- _ => is_var b; subst b
         | H : ?b = false |- _ => is_var b; subst b
         end.

Ltac finish :=
  repeat match goal with
         | |- _ /\ _ => split
         | |- _ -> _ => intro
         end;
  try discriminate; try assumption; try reflexivity;
  use_imps; subst_bools; use_imps;
  try assumption; try reflexivity;
  try match goal with |- context [?a =? ?b] => destruct (Z.eqb_spec a b) end;
  try lia.

Ltac project :=
  cbn [Iocp.world Iocp.impl Iocp.posted Iocp.deleted Iocp.trace Iocp.handle Iocp.refcnt_
       Iocp.is_read_active_ Iocp.is_write_waiting_ Iocp.is_connected_ Iocp.close_flag_].

(** After [H : m w = Done (r, w')] was split into its paths: read off [w'] and
    settle the invariant for it. *)
Ltac settle H :=
  injection H; clear H; intros;
  match goal with w' : Iocp.World |- _ => subst w' end;
  unfold Iocp.Inv, Iocp.accounted, Iocp.outstanding_ok; project;
  rewrite ?length_app, ?count_app, ?count_one, ?count_nil;
  cbn [Iocp.Overlapped_eqb List.length Z.b2z];
  bool_props; unwrap; finish.

(** *** The invariant *)

Lemma Inv_bounds s :
  Iocp.Inv s ->
  Z.b2z (Iocp.handle s) <= Iocp.refcnt_ (Iocp.impl (Iocp.world s)) <= 3.
Proof.
  destruct s as [h w].
  intros [[Hr _] (C1 & _ & C3 & _ & _ & C6 & C7 & C8)].
  pose proof (length_counts (Iocp.posted w)) as Hsum.
  cbn [Iocp.world Iocp.handle] in *.
  destruct h; [specialize (C7 eq_refl) |]; cbn [Z.b2z] in *; lia.
Qed.

Lemma Inv_on_iocp r_size overlapped region os_recv os_send i s w' :
  Iocp.Inv s ->
  nth_error (Iocp.posted (Iocp.world s)) i = Some overlapped ->
  Iocp.on_iocp r_size overlapped region os_recv os_send (Iocp.take i (Iocp.world s))
    = Done (tt, w') ->
  Iocp.Inv (Iocp.mkSystem (Iocp.handle s) w').
Proof.
  intros HI Hn H. pose proof (Inv_bounds _ HI) as Hb.
  destruct s as [h [o q d t]].
  destruct o as [inf r cf ic ira inp pe iwa iww outp].
  destruct HI as [[Hr Hd] (C1 & C2 & C3 & C4 & C5 & C6 & C7 & C8)].
  cbn [Iocp.world Iocp.impl Iocp.posted Iocp.deleted Iocp.handle Iocp.refcnt_
       Iocp.is_read_active_ Iocp.is_write_waiting_ Iocp.is_connected_] in *.
  pose proof (length_remove_nth _ _ _ Hn) as Hlen.
  pose proof (count_remove_nth Iocp.read_overlapped_ _ _ _ Hn) as R1.
  pose proof (count_remove_nth Iocp.write_overlapped_ _ _ _ Hn) as R2.
  pose proof (count_remove_nth Iocp.nullptr _ _ _ Hn) as R3.
  pose proof (count_remove_nth Iocp.close_overlapped_ _ _ _ Hn) as R4.
  pose proof (count_remove_nth Iocp.foreign_overlapped _ _ _ Hn) as R5.
  assert (Hr1 : 1 <= r) by (destruct h; cbn [Z.b2z] in *; lia).
  assert (Hd0 : d = 0%nat) by (destruct (Z.eqb_spec r 0); [lia | assumption]).
  clear Hd Hn. subst d.
  unfold_methods H. unwrap_in H.
  destruct overlapped, h, ira, iww, ic;
    cbn [Iocp.Overlapped_eqb Z.b2z] in *; use_imps; try lia;
    repeat (break_hyp H; try discriminate H).
  all: settle H.
Qed.

(** A live object was not deleted yet. *)
Ltac no_deletion :=
  match goal with
  | Hd : ?d = (if ?r =? 0 then _ else _) |- _ =>
      let Hd0 := fresh in
      assert (Hd0 : d = 0%nat) by (destruct (Z.eqb_spec r 0); [lia | assumption]);
      clear Hd; subst d
  end.

(** What the calls through the handle start from. *)
Ltac owner_call HI Hh H :=
  let Hb := fresh "Hb" in
  pose proof (Inv_bounds _ HI) as Hb;
  match goal with
  | s : Iocp.System |- _ =>
      destruct s as [h [[inf rc cf ic ira inp pe iwa iww outp] q d t]]
  end;
  destruct HI as [[Hr Hd] (C1 & C2 & C3 & C4 & C5 & C6 & C7 & C8)];
  cbn [Iocp.world Iocp.impl Iocp.posted Iocp.deleted Iocp.handle Iocp.refcnt_
       Iocp.is_read_active_ Iocp.is_write_waiting_ Iocp.is_connected_] in *;
  rewrite Hh in *; cbn [Z.b2z] in *; use_imps;
  no_deletion;
  unfold_methods H; unwrap_in H;
  repeat (break_hyp H; try discriminate H).

Lemma Inv_write data s r w' :
  Iocp.Inv s -> Iocp.handle s = true ->
  Iocp.write data (Iocp.world s) = Done (r, w') ->
  Iocp.Inv (Iocp.mkSystem true w').
Proof.
  intros HI Hh H. owner_call HI Hh H; settle H.
Qed.

Lemma Inv_read slice s r w' :
  Iocp.Inv s -> Iocp.handle s = true ->
  Iocp.read slice (Iocp.world s) = Done (r, w') ->
  Iocp.Inv (Iocp.mkSystem true w').
Proof.
  intros HI Hh H. owner_call HI Hh H; settle H.
Qed.

Lemma Inv_get_pending_error s r w' :
  Iocp.Inv s -> Iocp.handle s = true ->
  Iocp.get_pending_error (Iocp.world s) = Done (r, w') ->
  Iocp.Inv (Iocp.mkSystem true w').
Proof.
  intros HI Hh H. owner_call HI Hh H; settle H.
Qed.

Lemma Inv_close s w' :
  Iocp.Inv s -> Iocp.handle s = true ->
  Iocp.close (Iocp.world s) = Done (tt, w') ->
  Iocp.Inv (Iocp.mkSystem false w').
Proof.
  intros HI Hh H. owner_call HI Hh H; settle H.
Qed.

Lemma Inv_adopt fd w :
  Iocp.SocketFdImpl_adopt (Iocp.fresh fd) = Done (tt, w) ->
  Iocp.Inv (Iocp.mkSystem true w).
Proof.
  intros H. vm_compute in H. settle H.
Qed.

Lemma Inv_connect fd ioctl connect w :
  Iocp.SocketFdImpl_connect ioctl connect (Iocp.fresh fd) = Done (tt, w) ->
  Iocp.Inv (Iocp.mkSystem true w).
Proof.
  intros H. unfold_methods H.
  assert (W2 : Iocp.wrap_int (1 + 1) = 2) by reflexivity.
  assert (W1 : Iocp.wrap_int (2 - 1) = 1) by reflexivity.
  rewrite ?W2, ?W1 in H.
  repeat (break_hyp H; try discriminate H); settle H.
Qed.

Lemma Inv_step s s' : Iocp.Inv s -> Iocp.step s s' -> Iocp.Inv s'.
Proof.
  intros HI Hstep. destruct Hstep.
  - eapply Inv_write; eassumption.
  - eapply Inv_read; eassumption.
  - eapply Inv_get_pending_error; eassumption.
  - eapply Inv_close; eassumption.
  - eapply Inv_on_iocp; eassumption.
Qed.

Lemma reachable_Inv s : Iocp.reachable s -> Iocp.Inv s.
Proof.
  induction 1.
  - eapply Inv_adopt; eassumption.
  - eapply Inv_connect; eassumption.
  - eapply Inv_step; eassumption.
Qed.

(** *** After the end of the stream *)

Ltac unfold_flags H :=
  cbv beta iota zeta delta
    [info_add_flags info_clear_flags info_set_native_fd flags native_fd
     PollFlags.union PollFlags.diff PollFlags.has_pending_error
     PollFlags.Write PollFlags.Read PollFlags.Close PollFlags.Error PollFlags.empty
     PollFlags.write PollFlags.read PollFlags.close PollFlags.error
     Iocp.advance is_ok negb andb orb] in H.

Ltac ended_start HI HE :=
  let Hb := fresh "Hb" in
  pose proof (Inv_bounds _ HI) as Hb;
  match goal with
  | s : Iocp.System |- _ =>
      destruct s as [h [[[nfd [fw fr fc fe]] rc cf ic ira inp pe iwa iww outp] q d t]]
  end;
  destruct HI as [[Hr Hd] (C1 & C2 & C3 & C4 & C5 & C6 & C7 & C8)];
  destruct HE as (E1 & E2 & E3);
  cbn [Iocp.world Iocp.impl Iocp.posted Iocp.deleted Iocp.handle Iocp.refcnt_ Iocp.trace
       Iocp.is_read_active_ Iocp.is_write_waiting_ Iocp.is_connected_ Iocp.info
       flags PollFlags.close] in *;
  subst_bools.

Ltac ended_settle H :=
  injection H; clear H; intros;
  match goal with w' : Iocp.World |- _ => subst w' end;
  unfold Iocp.read_ended, Iocp.no_read_since;
  cbn [Iocp.world Iocp.impl Iocp.posted Iocp.trace Iocp.is_connected_ Iocp.info
       flags PollFlags.close];
  rewrite ?count_app, ?count_one; cbn [Iocp.Overlapped_eqb];
  split;
    [ split; [reflexivity | split; [lia | reflexivity]]
    | first [ exists []; split; [symmetry; apply app_nil_r | reflexivity]
            | rewrite <- ?app_assoc; eexists; split; reflexivity ] ].

Lemma ended_on_iocp r_size overlapped region os_recv os_send i s w' :
  Iocp.Inv s -> Iocp.read_ended s ->
  nth_error (Iocp.posted (Iocp.world s)) i = Some overlapped ->
  Iocp.on_iocp r_size overlapped region os_recv os_send (Iocp.take i (Iocp.world s))
    = Done (tt, w') ->
  Iocp.read_ended (Iocp.mkSystem (Iocp.handle s) w') /\
  Iocp.no_read_since (Iocp.trace (Iocp.world s)) (Iocp.trace w').
Proof.
  intros HI HE Hn H. ended_start HI HE.
  pose proof (count_remove_nth Iocp.read_overlapped_ _ _ _ Hn) as R1.
  pose proof (count_remove_nth Iocp.foreign_overlapped _ _ _ Hn) as R5.
  unfold_methods H. unfold_flags H.
  destruct overlapped; cbn [Iocp.Overlapped_eqb] in *; try lia;
    repeat (break_hyp H; try discriminate H);
    ended_settle H.
Qed.

Ltac ended_call HI HE H :=
  ended_start HI HE;
  unfold_methods H; unfold_flags H;
  repeat (break_hyp H; try discriminate H);
  ended_settle H.

Lemma ended_write data s r w' :
  Iocp.Inv s -> Iocp.read_ended s ->
  Iocp.write data (Iocp.world s) = Done (r, w') ->
  Iocp.read_ended (Iocp.mkSystem true w') /\
  Iocp.no_read_since (Iocp.trace (Iocp.world s)) (Iocp.trace w').
Proof. intros HI HE H. ended_call HI HE H. Qed.

Lemma ended_read slice s r w' :
  Iocp.Inv s -> Iocp.read_ended s ->
  Iocp.read slice (Iocp.world s) = Done (r, w') ->
  Iocp.read_ended (Iocp.mkSystem true w') /\
  Iocp.no_read_since (Iocp.trace (Iocp.world s)) (Iocp.trace w').
Proof. intros HI HE H. ended_call HI HE H. Qed.

Lemma ended_get_pending_error s r w' :
  Iocp.Inv s -> Iocp.read_ended s ->
  Iocp.get_pending_error (Iocp.world s) = Done (r, w') ->
  Iocp.read_ended (Iocp.mkSystem true w') /\
  Iocp.no_read_since (Iocp.trace (Iocp.world s)) (Iocp.trace w').
Proof. intros HI HE H. ended_call HI HE H. Qed.

Lemma ended_close s w' :
  Iocp.Inv s -> Iocp.read_ended s ->
  Iocp.close (Iocp.world s) = Done (tt, w') ->
  Iocp.read_ended (Iocp.mkSystem false w') /\
  Iocp.no_read_since (Iocp.trace (Iocp.world s)) (Iocp.trace w').
Proof. intros HI HE H. ended_call HI HE H. Qed.

Lemma ended_step s s' :
  Iocp.Inv s -> Iocp.read_ended s -> Iocp.step s s' ->
  Iocp.read_ended s' /\
  Iocp.no_read_since (Iocp.trace (Iocp.world s)) (Iocp.trace (Iocp.world s')).
Proof.
  intros HI HE Hstep. destruct Hstep.
  - eapply ended_write; eassumption.
  - eapply ended_read; eassumption.
  - eapply ended_get_pending_error; eassumption.
  - eapply ended_close; eassumption.
  - eapply ended_on_iocp; eassumption.
Qed.

Lemma no_read_since_refl t : Iocp.no_read_since t t.
Proof. exists []. split; [symmetry; apply app_nil_r | reflexivity]. Qed.

Lemma no_read_since_trans t1 t2 t3 :
  Iocp.no_read_since t1 t2 -> Iocp.no_read_since t2 t3 -> Iocp.no_read_since t1 t3.
Proof.
  intros [l1 [-> H1]] [l2 [-> H2]]. exists (l1 ++ l2). split.
  - symmetry. apply app_assoc.
  - rewrite existsb_app, H1, H2. reflexivity.
Qed.

Lemma ended_steps s s' :
  Iocp.Inv s -> Iocp.read_ended s -> Iocp.steps s s' ->
  Iocp.Inv s' /\ Iocp.read_ended s' /\
  Iocp.no_read_since (Iocp.trace (Iocp.world s)) (Iocp.trace (Iocp.world s')).
Proof.
  intros HI HE Hsteps. induction Hsteps as [s | s1 s2 s3 H12 IH H23].
  - split; [assumption | split; [assumption | apply no_read_since_refl]].
  - destruct (IH HI HE) as (HI2 & HE2 & Ht).
    destruct (ended_step _ _ HI2 HE2 H23) as [HE3 Ht3].
    split; [eapply Inv_step; eassumption |].
    split; [exact HE3 | eapply no_read_since_trans; eassumption].
Qed.

(** The completion that reports the end of the stream to [on_read]. *)
Lemma on_read_zero_ends region os_recv os_send i s w' :
  Iocp.Inv s ->
  nth_error (Iocp.posted (Iocp.world s)) i = Some Iocp.read_overlapped_ ->
  Iocp.is_connected_ (Iocp.impl (Iocp.world s)) = true ->
  Iocp.close_flag_ (Iocp.impl (Iocp.world s)) = false ->
  Iocp.refcnt_ (Iocp.impl (Iocp.world s)) <> 1 ->
  Iocp.on_iocp (Ok 0%N) Iocp.read_overlapped_ region os_recv os_send
    (Iocp.take i (Iocp.world s)) = Done (tt, w') ->
  Iocp.read_ended (Iocp.mkSystem (Iocp.handle s) w') /\
  Iocp.no_read_since (Iocp.trace (Iocp.world s)) (Iocp.trace w').
Proof.
  intros HI Hn Hic Hcf Hrc H. pose proof (Inv_bounds _ HI) as Hb.
  destruct s as [h [[[nfd [fw fr fc fe]] rc cf ic ira inp pe iwa iww outp] q d t]].
  destruct HI as [[Hr Hd] (C1 & C2 & C3 & C4 & C5 & C6 & C7 & C8)].
  cbn [Iocp.world Iocp.impl Iocp.posted Iocp.deleted Iocp.handle Iocp.refcnt_ Iocp.trace
       Iocp.is_read_active_ Iocp.is_write_waiting_ Iocp.is_connected_ Iocp.close_flag_
       Iocp.info flags PollFlags.close] in *.
  subst ic cf.
  assert (Hr1 : 1 <= rc).
  { pose proof (length_remove_nth _ _ _ Hn). destruct h; cbn [Z.b2z] in *; lia. }
  pose proof (count_remove_nth Iocp.read_overlapped_ _ _ _ Hn) as R1.
  cbn [Iocp.Overlapped_eqb] in R1.
  unfold_methods H. unfold_flags H. unwrap_in H.
  repeat (break_hyp H; try discriminate H); bool_props; try lia;
    ended_settle H.
Qed.

(** *** Reference counting *)

Lemma on_iocp_decrements_first r_size overlapped region os_recv os_send w w' :
  Iocp.on_iocp r_size overlapped region os_recv os_send w = Done (tt, w') ->
  exists l, Iocp.trace w' = Iocp.trace w ++ Iocp.Ev_dec_refcnt :: l.
Proof.
  intros H. destruct w as [[inf rc cf ic ira inp pe iwa iww outp] q d t].
  unfold_methods H.
  destruct overlapped; cbn [Iocp.Overlapped_eqb] in H;
    repeat (break_hyp H; try discriminate H);
    injection H as <-; cbn [Iocp.trace];
    rewrite <- ?app_assoc; eexists; reflexivity.
Qed.

Lemma taken_cases os :
  Iocp.taken os = true ->
  Iocp.wsa_status os = 0 \/
  (Iocp.wsa_status os <> 0 /\ Iocp.wsa_last_error os = Iocp.ERROR_IO_PENDING).
Proof.
  unfold Iocp.taken. intros H.
  destruct (Z.eqb_spec (Iocp.wsa_status os) 0) as [E | E]; [now left |].
  right. split; [exact E |]. apply Z.eqb_eq. exact H.
Qed.

Lemma close_effect w :
  Iocp.close w =
  Done (tt, Iocp.mkWorld (Iocp.impl w) (Iocp.posted w ++ [Iocp.close_overlapped_])
              (Iocp.deleted w) (Iocp.trace w ++ [Iocp.Ev_post Iocp.close_overlapped_])).
Proof. reflexivity. Qed.

Lemma notify_effect w overlapped (m : M Iocp.World unit) :
  m = (Iocp.inc_refcnt ;; Iocp.Iocp_post overlapped) ->
  Iocp.refcnt_ (Iocp.impl w) <> 0 ->
  exists w', m w = Done (tt, w') /\
    Iocp.refcnt_ (Iocp.impl w') = Iocp.wrap_int (Iocp.refcnt_ (Iocp.impl w) + 1) /\
    Iocp.posted w' = Iocp.posted w ++ [overlapped] /\
    Iocp.trace w' = Iocp.trace w ++ [Iocp.Ev_inc_refcnt; Iocp.Ev_post overlapped].
Proof.
  intros -> Hrc. destruct w as [[inf rc cf ic ira inp pe iwa iww outp] q d t].
  cbn [Iocp.impl Iocp.refcnt_ Iocp.posted Iocp.trace] in *.
  apply Z.eqb_neq in Hrc.
  unfold Iocp.inc_refcnt, Iocp.Iocp_post, Iocp.emit, Iocp.on_impl, bind, get, modify, CHECK, ret.
  cbn [Iocp.impl Iocp.refcnt_ Iocp.posted Iocp.trace Iocp.deleted Iocp.set_refcnt].
  rewrite Hrc. cbn. eexists. repeat split. rewrite <- app_assoc. reflexivity.
Qed.

Lemma loop_read_submits os w :
  Iocp.is_connected_ (Iocp.impl w) = true ->
  Iocp.is_read_active_ (Iocp.impl w) = false ->
  Iocp.close_flag_ (Iocp.impl w) = false ->
  Iocp.refcnt_ (Iocp.impl w) <> 0 ->
  Iocp.taken os = true ->
  exists w', Iocp.loop_read os w = Done (tt, w') /\
    Iocp.refcnt_ (Iocp.impl w') = Iocp.wrap_int (Iocp.refcnt_ (Iocp.impl w) + 1) /\
    Iocp.posted w' = Iocp.posted w ++ [Iocp.read_overlapped_] /\
    Iocp.trace w' = Iocp.trace w ++ [Iocp.Ev_WSARecv; Iocp.Ev_inc_refcnt].
Proof.
  intros Hic Hira Hcf Hrc Htaken.
  destruct w as [[inf rc cf ic ira inp pe iwa iww outp] q d t].
  cbn [Iocp.impl Iocp.refcnt_ Iocp.is_connected_ Iocp.is_read_active_ Iocp.close_flag_] in *.
  subst ic ira cf. apply Z.eqb_neq in Hrc.
  unfold Iocp.loop_read, Iocp.WSARecv, Iocp.or_check_status, Iocp.check_status,
    Iocp.inc_refcnt, Iocp.queue_completion, Iocp.emit, Iocp.on_impl,
    bind, get, modify, CHECK, ret.
  cbn. rewrite Htaken. cbn.
  destruct (taken_cases _ Htaken) as [E | [E1 E2]].
  - rewrite E. cbn. rewrite Hrc. cbn. eexists. repeat split.
    rewrite <- app_assoc. reflexivity.
  - apply Z.eqb_neq in E1. rewrite E1, E2. cbn. rewrite Hrc. cbn. eexists. repeat split.
    rewrite <- app_assoc. reflexivity.
Qed.

Lemma WSABUF_all (d : Slice) : Iocp.WSABUF (size d) d = d.
Proof.
  unfold Iocp.WSABUF, size.
  replace (N.to_nat (N.of_nat (List.length d))) with (List.length d) by lia.
  apply firstn_all.
Qed.

Lemma loop_write_send_submits to_write os w :
  to_write <> [] ->
  Iocp.refcnt_ (Iocp.impl w) <> 0 ->
  Iocp.taken os = true ->
  ((size (Iocp.prepare_read (Iocp.output_ (Iocp.impl w))) <= Iocp.ULONG_MAX)%N ->
   exists w', Iocp.loop_write_send to_write os w = Done (tt, w') /\
     Iocp.refcnt_ (Iocp.impl w') = Iocp.wrap_int (Iocp.refcnt_ (Iocp.impl w) + 1) /\
     Iocp.posted w' = Iocp.posted w ++ [Iocp.write_overlapped_] /\
     Iocp.trace w' =
       Iocp.trace w ++
       [Iocp.Ev_WSASend (Iocp.prepare_read (Iocp.output_ (Iocp.impl w)));
        Iocp.Ev_inc_refcnt]) /\
  ((Iocp.ULONG_MAX < size (Iocp.prepare_read (Iocp.output_ (Iocp.impl w))))%N ->
   Iocp.loop_write_send to_write os w = Fatal (CheckFailed "narrow_cast")).
Proof.
  intros Hne Hrc Htaken.
  destruct w as [[inf rc cf ic ira inp pe iwa iww outp] q d t].
  cbn [Iocp.impl Iocp.refcnt_ Iocp.output_] in *.
  apply Z.eqb_neq in Hrc.
  destruct to_write as [| b to_write]; [congruence |].
  unfold Iocp.loop_write_send, Iocp.narrow_cast_ULONG, Iocp.WSASend, Iocp.or_check_status,
    Iocp.check_status, Iocp.inc_refcnt, Iocp.queue_completion, Iocp.emit, Iocp.on_impl,
    bind, get, modify, CHECK, ret, abort.
  cbn [Iocp.is_nil Iocp.impl Iocp.output_ Iocp.refcnt_ Iocp.posted Iocp.trace Iocp.deleted].
  split; intros Hlen.
  - apply N.leb_le in Hlen. rewrite Hlen, WSABUF_all, Htaken.
    destruct (taken_cases _ Htaken) as [E | [E1 E2]].
    + rewrite E. cbn. rewrite Hrc. cbn. eexists. repeat split.
      rewrite <- app_assoc. reflexivity.
    + apply Z.eqb_neq in E1. rewrite E1, E2. cbn. rewrite Hrc. cbn. eexists. repeat split.
      rewrite <- app_assoc. reflexivity.
  - apply N.leb_gt in Hlen. rewrite Hlen. reflexivity.
Qed.

Lemma connect_submits fd ioctl connect :
  Iocp.wsa_status ioctl = 0 ->
  Iocp.wsa_status connect <> Iocp.TRUE ->
  Iocp.wsa_last_error connect = Iocp.ERROR_IO_PENDING ->
  exists w', Iocp.SocketFdImpl_connect ioctl connect (Iocp.fresh fd) = Done (tt, w') /\
    Iocp.refcnt_ (Iocp.impl w') = 2 /\
    Iocp.posted w' = [Iocp.read_overlapped_] /\
    Iocp.trace w' =
      [Iocp.Ev_subscribe; Iocp.Ev_WSAIoctl; Iocp.Ev_inc_refcnt; Iocp.Ev_ConnectEx].
Proof.
  intros Hio Hst Hle. apply Z.eqb_neq in Hst.
  unfold Iocp.SocketFdImpl_connect, Iocp.ConnectEx, Iocp.check_status,
    Iocp.inc_refcnt, Iocp.queue_completion, Iocp.emit, Iocp.on_impl, Iocp.add_flags,
    bind, get, modify, CHECK, ret.
  repeat (progress (rewrite ?Hio, ?Hst, ?Hle; cbn)). eexists.
  split; [reflexivity |]. split; [vm_compute; reflexivity |]. split; reflexivity.
Qed.

Lemma dec_refcnt_effect w :
  let r := Iocp.wrap_int (Iocp.refcnt_ (Iocp.impl w) - 1) in
  exists w', Iocp.dec_refcnt w = Done (r =? 0, w') /\
    Iocp.refcnt_ (Iocp.impl w') = r /\
    Iocp.posted w' = Iocp.posted w /\
    Iocp.deleted w' = if r =? 0 then S (Iocp.deleted w) else Iocp.deleted w.
Proof.
  destruct w as [[inf rc cf ic ira inp pe iwa iww outp] q d t]. cbv zeta.
  unfold Iocp.dec_refcnt, Iocp.emit, Iocp.on_impl, bind, get, modify, ret.
  cbn [Iocp.impl Iocp.refcnt_ Iocp.posted Iocp.trace Iocp.deleted Iocp.set_refcnt].
  destruct (Iocp.wrap_int (rc - 1) =? 0); eexists; repeat split.
Qed.

(** C1, as amended: on every state a socket can reach, the reference count
    equals the number of completions still to be delivered plus one while the
    handle owns the object; the object was deleted exactly if the count is
    zero, at most once, and then nothing is left that could touch it.  The
    count is taken per submission: the "data queued" and "connected"
    notifications and ConnectEx take it before they are submitted, an
    accepted WSARecv or WSASend right after the call (WSASend is called when
    the length of the slice fits a ULONG; the checked narrowing of that
    length terminates the process otherwise); the "close"
    notification takes none, its delivery gives back the reference of the
    handle.  Every delivery starts with the decrement, and the decrement
    deletes the object exactly when it reaches zero. *)
Theorem iocp_refcnt_accounting :
  (forall s, Iocp.reachable s ->
     Iocp.accounted s /\
     (Iocp.deleted (Iocp.world s) <= 1)%nat /\
     (Iocp.refcnt_ (Iocp.impl (Iocp.world s)) = 0 ->
        Iocp.posted (Iocp.world s) = [] /\ Iocp.handle s = false)) /\
  (forall w, Iocp.refcnt_ (Iocp.impl w) <> 0 ->
     exists w', Iocp.notify_iocp_write w = Done (tt, w') /\
       Iocp.refcnt_ (Iocp.impl w') = Iocp.wrap_int (Iocp.refcnt_ (Iocp.impl w) + 1) /\
       Iocp.posted w' = Iocp.posted w ++ [Iocp.nullptr] /\
       Iocp.trace w' = Iocp.trace w ++ [Iocp.Ev_inc_refcnt; Iocp.Ev_post Iocp.nullptr]) /\
  (forall w, Iocp.refcnt_ (Iocp.impl w) <> 0 ->
     exists w', Iocp.notify_iocp_connected w = Done (tt, w') /\
       Iocp.refcnt_ (Iocp.impl w') = Iocp.wrap_int (Iocp.refcnt_ (Iocp.impl w) + 1) /\
       Iocp.posted w' = Iocp.posted w ++ [Iocp.read_overlapped_] /\
       Iocp.trace w' =
         Iocp.trace w ++ [Iocp.Ev_inc_refcnt; Iocp.Ev_post Iocp.read_overlapped_]) /\
  (forall fd ioctl connect,
     Iocp.wsa_status ioctl = 0 ->
     Iocp.wsa_status connect <> Iocp.TRUE ->
     Iocp.wsa_last_error connect = Iocp.ERROR_IO_PENDING ->
     exists w', Iocp.SocketFdImpl_connect ioctl connect (Iocp.fresh fd) = Done (tt, w') /\
       Iocp.refcnt_ (Iocp.impl w') = 2 /\
       Iocp.posted w' = [Iocp.read_overlapped_] /\
       Iocp.trace w' =
         [Iocp.Ev_subscribe; Iocp.Ev_WSAIoctl; Iocp.Ev_inc_refcnt; Iocp.Ev_ConnectEx]) /\
  (forall os w,
     Iocp.is_connected_ (Iocp.impl w) = true ->
     Iocp.is_read_active_ (Iocp.impl w) = false ->
     Iocp.close_flag_ (Iocp.impl w) = false ->
     Iocp.refcnt_ (Iocp.impl w) <> 0 ->
     Iocp.taken os = true ->
     exists w', Iocp.loop_read os w = Done (tt, w') /\
       Iocp.refcnt_ (Iocp.impl w') = Iocp.wrap_int (Iocp.refcnt_ (Iocp.impl w) + 1) /\
       Iocp.posted w' = Iocp.posted w ++ [Iocp.read_overlapped_] /\
       Iocp.trace w' = Iocp.trace w ++ [Iocp.Ev_WSARecv; Iocp.Ev_inc_refcnt]) /\
  (forall to_write os w,
     to_write <> [] ->
     Iocp.refcnt_ (Iocp.impl w) <> 0 ->
     Iocp.taken os = true ->
     ((size (Iocp.prepare_read (Iocp.output_ (Iocp.impl w))) <= Iocp.ULONG_MAX)%N ->
      exists w', Iocp.loop_write_send to_write os w = Done (tt, w') /\
        Iocp.refcnt_ (Iocp.impl w') = Iocp.wrap_int (Iocp.refcnt_ (Iocp.impl w) + 1) /\
        Iocp.posted w' = Iocp.posted w ++ [Iocp.write_overlapped_] /\
        Iocp.trace w' =
          Iocp.trace w ++
          [Iocp.Ev_WSASend (Iocp.prepare_read (Iocp.output_ (Iocp.impl w)));
           Iocp.Ev_inc_refcnt]) /\
     ((Iocp.ULONG_MAX < size (Iocp.prepare_read (Iocp.output_ (Iocp.impl w))))%N ->
      Iocp.loop_write_send to_write os w = Fatal (CheckFailed "narrow_cast"))) /\
  (forall w,
     Iocp.close w =
     Done (tt, Iocp.mkWorld (Iocp.impl w) (Iocp.posted w ++ [Iocp.close_overlapped_])
                 (Iocp.deleted w)
                 (Iocp.trace w ++ [Iocp.Ev_post Iocp.close_overlapped_]))) /\
  (forall r_size overlapped region os_recv os_send w w',
     Iocp.on_iocp r_size overlapped region os_recv os_send w = Done (tt, w') ->
     exists l, Iocp.trace w' = Iocp.trace w ++ Iocp.Ev_dec_refcnt :: l) /\
  (forall w,
     let r := Iocp.wrap_int (Iocp.refcnt_ (Iocp.impl w) - 1) in
     exists w', Iocp.dec_refcnt w = Done (r =? 0, w') /\
       Iocp.refcnt_ (Iocp.impl w') = r /\
       Iocp.posted w' = Iocp.posted w /\
       Iocp.deleted w' = if r =? 0 then S (Iocp.deleted w) else Iocp.deleted w).
Proof.
  split.
  { intros s Hreach. pose proof (reachable_Inv _ Hreach) as HI.
    pose proof (Inv_bounds _ HI) as Hb.
    destruct HI as [[Hr Hd] _]. split; [split; assumption |].
    split.
    - rewrite Hd. destruct (_ =? _); lia.
    - intros H0. rewrite H0 in Hr.
      destruct (Iocp.handle s); cbn [Z.b2z] in Hr.
      + lia.
      + split; [| reflexivity].
        destruct (Iocp.posted (Iocp.world s)); [reflexivity | cbn in Hr; lia]. }
  split; [intros w H; apply (notify_effect w Iocp.nullptr); [reflexivity | exact H] |].
  split; [intros w H; apply (notify_effect w Iocp.read_overlapped_); [reflexivity | exact H] |].
  split; [exact connect_submits |].
  split; [exact loop_read_submits |].
  split; [exact loop_write_send_submits |].
  split; [exact close_effect |].
  split; [exact on_iocp_decrements_first |].
  exact dec_refcnt_effect.
Qed.

Lemma iocp_refcnt_accounting_witness :
  Iocp.accounted (Iocp.mkSystem true connected) /\
  (Iocp.deleted connected <= 1)%nat /\
  (Iocp.refcnt_ (Iocp.impl connected) = 0 ->
     Iocp.posted connected = [] /\ true = false).
Proof.
  refine (proj1 iocp_refcnt_accounting (Iocp.mkSystem true connected) _).
  apply (Iocp.reachable_step (Iocp.mkSystem true adopted)).
  - apply (Iocp.reachable_adopt 7). reflexivity.
  - apply (Iocp.step_on_iocp (Iocp.mkSystem true adopted) 0 Iocp.read_overlapped_
             (Ok 0%N) [] pending pending); reflexivity.
Defined.

(** C1 as stated does not hold: [close] submits its notification and leaves
    the count at 2; and the read that [on_connected] submits was handed to
    WSARecv before the count was incremented for it. *)
Lemma iocp_close_takes_no_reference :
  Iocp.refcnt_ (Iocp.impl connected) = 2 /\
  Iocp.close connected =
  Done (tt, Iocp.mkWorld (Iocp.impl connected)
              [Iocp.read_overlapped_; Iocp.close_overlapped_] 0
              (Iocp.trace connected ++ [Iocp.Ev_post Iocp.close_overlapped_])) /\
  Iocp.on_iocp (Ok 0%N) Iocp.read_overlapped_ [] pending pending (Iocp.take 0 adopted) =
  Done (tt, connected) /\
  Iocp.trace connected =
  Iocp.trace adopted ++ [Iocp.Ev_dec_refcnt; Iocp.Ev_WSARecv; Iocp.Ev_inc_refcnt].
Proof. repeat split. Qed.

(** *** get_pending_error, write and read of the completion backend *)

(** C4, as amended: [get_pending_error] pops the error at the head of the
    queue and returns it, leaving the Error flag as it is, also when the
    queue becomes empty; when the queue is empty it returns OK and clears the
    Error flag. *)
Theorem iocp_get_pending_error_pops (w : Iocp.World) :
  (Iocp.pending_errors_ (Iocp.impl w) = [] ->
     Iocp.get_pending_error w =
     Done (OK, Iocp.mkWorld (Iocp.set_info (info_clear_flags PollFlags.Error) (Iocp.impl w))
                 (Iocp.posted w) (Iocp.deleted w) (Iocp.trace w))) /\
  (forall e rest, Iocp.pending_errors_ (Iocp.impl w) = Error e :: rest ->
     Iocp.get_pending_error w =
     Done (Error e, Iocp.mkWorld (Iocp.set_pending_errors rest (Iocp.impl w))
                      (Iocp.posted w) (Iocp.deleted w) (Iocp.trace w))).
Proof.
  destruct w as [[inf rc cf ic ira inp pe iwa iww outp] q d t].
  cbn [Iocp.impl Iocp.pending_errors_ Iocp.posted Iocp.deleted Iocp.trace].
  split.
  - intros ->. reflexivity.
  - intros e rest ->. reflexivity.
Qed.

Lemma iocp_get_pending_error_pops_witness :
  Iocp.get_pending_error failed =
  Done (Error (mkError 10054 [Str "reset"]),
        Iocp.mkWorld (Iocp.set_pending_errors [] (Iocp.impl failed))
          (Iocp.posted failed) (Iocp.deleted failed) (Iocp.trace failed)).
Proof.
  exact (proj2 (iocp_get_pending_error_pops failed) (mkError 10054 [Str "reset"]) []
           eq_refl).
Defined.

(** C4 as stated does not hold: the call pops the only error, the queue
    becomes empty, and the Error flag is still set. *)
Lemma iocp_get_pending_error_keeps_flag :
  Iocp.pending_errors_ (Iocp.impl failed) = [Error (mkError 10054 [Str "reset"])] /\
  exists w',
    Iocp.get_pending_error failed = Done (Error (mkError 10054 [Str "reset"]), w') /\
    Iocp.pending_errors_ (Iocp.impl w') = [] /\
    PollFlags.error (Iocp.get_flags w') = true.
Proof. split; [reflexivity |]. eexists. repeat split. Qed.

(** C5: whenever [write] can be called (the handle owns a reachable object),
    it appends the bytes to the outbound staging buffer and returns the full
    count as success. *)
Theorem iocp_write_accepts_all (data : Slice) (s : Iocp.System) :
  Iocp.reachable s -> Iocp.handle s = true ->
  exists w',
    Iocp.write data (Iocp.world s) = Done (Ok (size data), w') /\
    Iocp.chain (Iocp.output_ (Iocp.impl w')) =
    Iocp.chain (Iocp.output_ (Iocp.impl (Iocp.world s))) ++ data.
Proof.
  intros Hreach Hh. pose proof (Inv_bounds _ (reachable_Inv _ Hreach)) as Hb.
  rewrite Hh in Hb. cbn [Z.b2z] in Hb.
  destruct s as [h [[inf rc cf ic ira inp pe iwa iww outp] q d t]].
  cbn [Iocp.world Iocp.impl Iocp.refcnt_ Iocp.output_] in *.
  assert (Hrc : (rc =? 0) = false) by (apply Z.eqb_neq; lia).
  unfold Iocp.write, Iocp.notify_iocp_write, Iocp.inc_refcnt, Iocp.Iocp_post, Iocp.emit,
    Iocp.on_impl, bind, get, modify, CHECK, ret.
  cbn. destruct iww; cbn; [rewrite Hrc; cbn |]; eexists; split; reflexivity.
Qed.

Lemma iocp_write_accepts_all_witness :
  exists w',
    Iocp.write hello connected = Done (Ok 5%N, w') /\
    Iocp.chain (Iocp.output_ (Iocp.impl w')) = [] ++ hello.
Proof.
  refine (iocp_write_accepts_all hello (Iocp.mkSystem true connected) _ eq_refl).
  apply (Iocp.reachable_step (Iocp.mkSystem true adopted)).
  - apply (Iocp.reachable_adopt 7). reflexivity.
  - apply (Iocp.step_on_iocp (Iocp.mkSystem true adopted) 0 Iocp.read_overlapped_
             (Ok 0%N) [] pending pending); reflexivity.
Defined.

(** What [read] does once the pending error check is behind it. *)
Lemma iocp_read_without_error slice w :
  PollFlags.has_pending_error (Iocp.get_flags w) = false \/
  Iocp.pending_errors_ (Iocp.impl w) = [] ->
  let avail := Iocp.chain (Iocp.input_ (Iocp.impl w)) in
  let n := N.min (size slice) (size avail) in
  exists w',
    Iocp.read slice w =
    Done ((Ok n, firstn (N.to_nat n) avail ++ skipn (N.to_nat n) slice), w') /\
    Iocp.chain (Iocp.input_ (Iocp.impl w')) = skipn (N.to_nat n) avail /\
    PollFlags.read (Iocp.get_flags w') =
      (if (n =? 0)%N then false else PollFlags.read (Iocp.get_flags w)) /\
    PollFlags.close (Iocp.get_flags w') = PollFlags.close (Iocp.get_flags w) /\
    PollFlags.write (Iocp.get_flags w') = PollFlags.write (Iocp.get_flags w) /\
    (PollFlags.has_pending_error (Iocp.get_flags w) = false ->
     PollFlags.error (Iocp.get_flags w') = false).
Proof.
  intros Hok.
  destruct w as [[[nfd [fw fr fc fe]] rc cf ic ira inp pe iwa iww outp] q d t].
  cbn [Iocp.impl Iocp.input_ Iocp.pending_errors_ Iocp.get_flags Iocp.info flags
       PollFlags.has_pending_error PollFlags.error] in *.
  cbv zeta.
  unfold Iocp.read, Iocp.get_pending_error, Iocp.clear_flags, Iocp.on_impl,
    Iocp.advance, Iocp.reader_size, Iocp.sync_with_writer, Iocp.confirm_read, size,
    bind, get, modify, ret.
  cbn.
  destruct Hok as [-> | ->]; [| destruct fe]; cbn;
    destruct (N.min _ _ =? 0)%N; cbn; eexists; repeat split;
    cbn; rewrite ?andb_true_r, ?andb_false_r; try reflexivity; try (intros; discriminate).
Qed.

(** C9: with no latched error, [read] synchronises the inbound staging
    buffer, copies out the first min(requested, available) bytes, returns
    that count as success, and clears Readable exactly when the count is 0;
    the Closed flag is not touched. *)
Theorem iocp_read_copies_min (slice : MutableSlice) (w : Iocp.World) :
  PollFlags.has_pending_error (Iocp.get_flags w) = false ->
  let avail := Iocp.chain (Iocp.input_ (Iocp.impl w)) in
  let n := N.min (size slice) (size avail) in
  exists w',
    Iocp.read slice w =
    Done ((Ok n, firstn (N.to_nat n) avail ++ skipn (N.to_nat n) slice), w') /\
    Iocp.chain (Iocp.input_ (Iocp.impl w')) = skipn (N.to_nat n) avail /\
    PollFlags.read (Iocp.get_flags w') =
      (if (n =? 0)%N then false else PollFlags.read (Iocp.get_flags w)) /\
    PollFlags.close (Iocp.get_flags w') = PollFlags.close (Iocp.get_flags w).
Proof.
  intros H. cbv zeta.
  destruct (iocp_read_without_error slice w (or_introl H)) as (w' & H1 & H2 & H3 & H4 & _).
  exists w'. repeat split; assumption.
Qed.

Lemma iocp_read_copies_min_witness :
  exists w',
    Iocp.read four_bytes staged =
    Done ((Ok 4%N, [Byte.x68; Byte.x65; Byte.x6c; Byte.x6c]), w') /\
    Iocp.chain (Iocp.input_ (Iocp.impl w')) =
      [Byte.x6f; Byte.x68; Byte.x65; Byte.x6c; Byte.x6c; Byte.x6f] /\
    PollFlags.read (Iocp.get_flags w') = true /\
    PollFlags.close (Iocp.get_flags w') = false.
Proof.
  exact (iocp_read_copies_min four_bytes staged eq_refl).
Defined.

(** C10, as amended: [read] with a zero-length buffer returns 0 as success
    and clears Readable, the bytes staged in the inbound buffer staying where
    they are, when no pending error is surfaced first (the Error flag is not
    latched, or the queue of errors is empty).  With the Error flag latched
    and an error at the head of the queue it returns that error instead,
    takes it off the queue, and leaves the poll flags, Readable among them,
    and the staged bytes as they are. *)
Theorem iocp_read_zero_length (w : Iocp.World) :
  (PollFlags.has_pending_error (Iocp.get_flags w) = false \/
   Iocp.pending_errors_ (Iocp.impl w) = [] ->
   exists w',
     Iocp.read [] w = Done ((Ok 0%N, []), w') /\
     PollFlags.read (Iocp.get_flags w') = false /\
     Iocp.chain (Iocp.input_ (Iocp.impl w')) = Iocp.chain (Iocp.input_ (Iocp.impl w))) /\
  (forall e rest,
     PollFlags.has_pending_error (Iocp.get_flags w) = true ->
     Iocp.pending_errors_ (Iocp.impl w) = Error e :: rest ->
     exists w',
       Iocp.read [] w = Done ((Err e, []), w') /\
       Iocp.get_flags w' = Iocp.get_flags w /\
       Iocp.pending_errors_ (Iocp.impl w') = rest /\
       Iocp.input_ (Iocp.impl w') = Iocp.input_ (Iocp.impl w)).
Proof.
  split.
  - intros H.
    destruct (iocp_read_without_error [] w H) as (w' & H1 & H2 & H3 & _).
    change (size []) with 0%N in *. rewrite N.min_0_l in *.
    exists w'. split; [exact H1 |]. split; [exact H3 | exact H2].
  - intros e rest Hflag Hq.
    destruct w as [[[nfd [fw fr fc fe]] rc cf ic ira inp pe iwa iww outp] q d t].
    cbn [Iocp.impl Iocp.input_ Iocp.pending_errors_ Iocp.get_flags Iocp.info flags
         PollFlags.has_pending_error PollFlags.error] in *.
    subst fe pe.
    unfold Iocp.read, Iocp.get_pending_error, Iocp.clear_flags, Iocp.on_impl,
      bind, get, modify, ret.
    cbn. eexists. repeat split.
Qed.

Lemma iocp_read_zero_length_witness :
  (exists w',
     Iocp.read [] staged = Done ((Ok 0%N, []), w') /\
     PollFlags.read (Iocp.get_flags w') = false /\
     Iocp.chain (Iocp.input_ (Iocp.impl w')) = hello ++ hello) /\
  (exists w',
     Iocp.read [] staged_failed = Done ((Err (mkError 10054 [Str "reset"]), []), w') /\
     Iocp.get_flags w' = Iocp.get_flags staged_failed /\
     Iocp.pending_errors_ (Iocp.impl w') = [] /\
     Iocp.input_ (Iocp.impl w') = Iocp.input_ (Iocp.impl staged_failed)).
Proof.
  split.
  - exact (proj1 (iocp_read_zero_length staged) (or_introl eq_refl)).
  - exact (proj2 (iocp_read_zero_length staged_failed) (mkError 10054 [Str "reset"]) []
             eq_refl eq_refl).
Defined.

(** C10 as stated does not hold: with the Error flag latched and an error in
    the queue, [read] with a zero-length buffer returns that error and leaves
    Readable set. *)
Lemma iocp_read_zero_length_surfaces_error :
  PollFlags.read (Iocp.get_flags staged_failed) = true /\
  exists w',
    Iocp.read [] staged_failed = Done ((Err (mkError 10054 [Str "reset"]), []), w') /\
    PollFlags.read (Iocp.get_flags w') = true.
Proof. split; [reflexivity |]. eexists. split; reflexivity. Qed.

(** ** Opening a socket *)

Lemma connect_constructor_returns fd ioctl connect :
  exists w, Iocp.SocketFdImpl_connect ioctl connect (Iocp.fresh fd) = Done (tt, w).
Proof.
  unfold Iocp.SocketFdImpl_connect, Iocp.ConnectEx, Iocp.check_status, Iocp.on_error,
    Iocp.inc_refcnt, Iocp.dec_refcnt, Iocp.queue_completion, Iocp.emit, Iocp.on_impl,
    Iocp.add_flags, Iocp.add_flags_from_poll, bind, get, modify, CHECK, ret.
  destruct (Iocp.wsa_status ioctl =? 0) eqn:H1;
    destruct (Iocp.wsa_status connect =? Iocp.TRUE) eqn:H2;
    destruct (Iocp.wsa_last_error connect =? Iocp.ERROR_IO_PENDING) eqn:H3;
    repeat (progress (rewrite ?H1, ?H2, ?H3; cbn));
    eexists; reflexivity.
Qed.

(** C2, as amended: [open] fails, with the error of the system and without a
    handle, when the socket cannot be created and when it cannot be put in
    non-blocking mode; on the readiness backend also when connect fails with
    anything but EINPROGRESS, on the completion backend also when bind
    fails.  In every other case a non-empty handle is returned, whatever the
    three setsockopt calls answered. *)
Theorem open_failures (E : Errno) (address : IPAddress) (os : Posix.OpenOs) :
  let fd := sys_ret (Posix.socket_call os) in
  let conn := Posix.connect_call os in
  (fd = empty_fd ->
     Posix.open E address os =
     Err (Posix.PosixError (sys_errno (Posix.socket_call os))
            [Str "Failed to create a socket"])) /\
  (forall e, fd <> empty_fd -> set_is_blocking_unsafe (Posix.options os) = Error e ->
     Posix.open E address os = Err e) /\
  (fd <> empty_fd -> set_is_blocking_unsafe (Posix.options os) = OK ->
   sys_ret conn = -1 -> sys_errno conn <> EINPROGRESS E ->
     Posix.open E address os =
     Err (Posix.PosixError (sys_errno conn)
            [Str "Failed to connect to "; Str (addr_text address)])) /\
  (fd <> empty_fd -> set_is_blocking_unsafe (Posix.options os) = OK ->
   sys_ret conn <> -1 \/ sys_errno conn = EINPROGRESS E ->
     Posix.open E address os =
     Ok (Posix.mkSocketFd (Some (Posix.mkImpl (mkInfo fd PollFlags.empty)))) /\
     Posix.empty (Posix.mkSocketFd (Some (Posix.mkImpl (mkInfo fd PollFlags.empty)))) = false) /\
  (forall wos : Iocp.OpenOs,
     let wfd := sys_ret (Iocp.socket_call wos) in
     (wfd = empty_fd ->
        Iocp.open address wos =
        Done (Err (mkError (sys_errno (Iocp.socket_call wos))
                     [Str "Failed to create a socket"]))) /\
     (forall e, wfd <> empty_fd -> set_is_blocking_unsafe (Iocp.options wos) = Error e ->
        Iocp.open address wos = Done (Err e)) /\
     (wfd <> empty_fd -> set_is_blocking_unsafe (Iocp.options wos) = OK ->
      Iocp.wsa_status (Iocp.bind_call wos) <> 0 ->
        Iocp.open address wos =
        Done (Err (mkError (Iocp.wsa_last_error (Iocp.bind_call wos))
                     [Str "Failed to bind a socket"]))) /\
     (wfd <> empty_fd -> set_is_blocking_unsafe (Iocp.options wos) = OK ->
      Iocp.wsa_status (Iocp.bind_call wos) = 0 ->
        exists w, Iocp.open address wos = Done (Ok (Iocp.mkSystem true w)))).
Proof.
  cbv zeta. split; [| split; [| split; [| split]]].
  5: {
    intros wos. unfold Iocp.open, Iocp.construct, NativeFd_bool, init_socket_options.
    split; [| split; [| split]].
    - intros H. rewrite H. reflexivity.
    - intros e Hfd Hopt. apply Z.eqb_neq in Hfd. rewrite Hfd, Hopt. reflexivity.
    - intros Hfd Hopt Hbind. apply Z.eqb_neq in Hfd, Hbind.
      rewrite Hfd, Hopt, Hbind. reflexivity.
    - intros Hfd Hopt Hbind. apply Z.eqb_neq in Hfd. rewrite Hfd, Hopt, Hbind.
      cbn - [Iocp.SocketFdImpl_connect].
      destruct (connect_constructor_returns (sys_ret (Iocp.socket_call wos))
                  (Iocp.ioctl_call wos) (Iocp.connect_call wos)) as [w Hw].
      rewrite Hw. exists w. reflexivity. }
  all: unfold Posix.open, NativeFd_bool, init_socket_options.
  - intros H. rewrite H. reflexivity.
  - intros e Hfd Hopt. apply Z.eqb_neq in Hfd. rewrite Hfd, Hopt. reflexivity.
  - intros Hfd Hopt Hret Herrno. apply Z.eqb_neq in Hfd, Herrno.
    rewrite Hfd, Hopt, Hret, Herrno. reflexivity.
  - intros Hfd Hopt Hconn. apply Z.eqb_neq in Hfd. rewrite Hfd, Hopt. cbn.
    split; [| reflexivity].
    destruct Hconn as [Hret | Herrno].
    + apply Z.eqb_neq in Hret. rewrite Hret. reflexivity.
    + rewrite Herrno, Z.eqb_refl. cbn.
      destruct (sys_ret (Posix.connect_call os) =? -1); reflexivity.
Qed.

Lemma open_failures_witness :
  Posix.open linux localhost
    (Posix.mkOpenOs (mkSys 7 0) options_refused (mkSys (-1) (ECONNRESET linux))) =
  Err (mkError 104 [Str "Failed to connect to "; Str "127.0.0.1:80"]).
Proof.
  refine (proj1 (proj2 (proj2 (open_failures linux localhost
            (Posix.mkOpenOs (mkSys 7 0) options_refused (mkSys (-1) (ECONNRESET linux))))))
            _ _ _ _); [discriminate | reflexivity | reflexivity | discriminate].
Defined.

(** C2 as stated does not hold: the three setsockopt calls fail, and [open]
    still returns a handle. *)
Lemma open_ignores_setsockopt :
  setsockopt_reuseaddr options_refused = -1 /\
  setsockopt_keepalive options_refused = -1 /\
  setsockopt_nodelay options_refused = -1 /\
  Posix.open linux localhost (Posix.mkOpenOs (mkSys 7 0) options_refused (mkSys 0 0)) =
  Ok (Posix.mkSocketFd (Some (Posix.mkImpl (mkInfo 7 PollFlags.empty)))).
Proof. repeat split. Qed.

(** * Further properties of the code *)

(** ** Readiness backend *)

(** X1: a failing read, with no error latched and a non-empty buffer, is
    classified by errno once the would-block codes are excluded: EISDIR,
    EBADF, ENXIO, EFAULT and EINVAL terminate the process; every other code
    clears Readable, sets Closed and is returned, with a warning logged only
    when it is not one of the six listed connection errors. *)
Theorem posix_read_failure_classified (E : Errno) (slice : MutableSlice) (gso : Getsockopt)
    (os : Syscall) (w : Posix.World) :
  (0 < size slice)%N ->
  PollFlags.has_pending_error (Posix.get_flags w) = false ->
  sys_ret os < 0 ->
  sys_errno os <> EAGAIN E -> sys_errno os <> EWOULDBLOCK E ->
  let errno := sys_errno os in
  let fd := Posix.get_native_fd (Posix.impl w) in
  let f := Posix.get_flags w in
  let called := Posix.trace w ++ [Posix.Sys_read fd (size slice)] in
  let error := Posix.PosixError errno [Str "Read from fd "; Num fd; Str " has failed"] in
  (In errno [EISDIR E; EBADF E; ENXIO E; EFAULT E; EINVAL E] ->
     Posix.read E slice gso os w = Fatal (LogFatal error)) /\
  (~ In errno [EISDIR E; EBADF E; ENXIO E; EFAULT E; EINVAL E] ->
     Posix.read E slice gso os w =
     Done (Err error,
           Posix.mkWorld
             (Posix.mkImpl
                (mkInfo fd (PollFlags.union (PollFlags.diff f PollFlags.Read) PollFlags.Close)))
             (called ++
              if mem errno [ENOTCONN E; EIO E; ENOBUFS E; ENOMEM E; ECONNRESET E; ETIMEDOUT E]
              then [] else [Posix.LogWarning error]))).
Proof.
  intros Hsize Hflag Hneg H1 H2 errno fd f called error.
  apply N.ltb_lt in Hsize. apply Z.leb_gt in Hneg.
  pose proof (would_block_false _ _ _ H1 H2) as Hwb.
  destruct w as [[[nfd [fw fr fc fe]]] tr].
  unfold Posix.get_flags, PollFlags.has_pending_error in Hflag. simpl in Hflag. subst fe.
  unfold Posix.read, Posix.read_fatal, Posix.read_known, Posix.get_flags,
    Posix.get_native_fd, PollFlags.has_pending_error. run. cbn - [In mem].
  rewrite Hsize. cbn - [In mem]. rewrite Hneg, Hwb. fold errno.
  split.
  - intros Hfatal. apply mem_In in Hfatal. rewrite Hfatal. reflexivity.
  - intros Hfatal. apply mem_not_In in Hfatal. rewrite Hfatal.
    destruct (mem errno [ENOTCONN E; EIO E; ENOBUFS E; ENOMEM E; ECONNRESET E; ETIMEDOUT E]).
    + subst called. rewrite app_nil_r. reflexivity.
    + reflexivity.
Qed.

Lemma posix_read_failure_classified_witness :
  Posix.read linux hello (mkGso 0 0 0) (mkSys (-1) (EPIPE linux))
    (posix_socket (PollFlags.mk true true false false)) =
  Done (Err (mkError 32 [Str "Read from fd "; Num 7; Str " has failed"]),
        Posix.mkWorld (Posix.mkImpl (mkInfo 7 (PollFlags.mk true false true false)))
          [Posix.Sys_read 7 5;
           Posix.LogWarning (mkError 32 [Str "Read from fd "; Num 7; Str " has failed"])]).
Proof.
  refine (proj2 (posix_read_failure_classified linux hello (mkGso 0 0 0)
                   (mkSys (-1) (EPIPE linux))
                   (posix_socket (PollFlags.mk true true false false)) _ _ _ _ _) _);
    simpl; try reflexivity; lia.
Defined.



(** ** Adopting a descriptor *)

(** X3: [from_native_fd] fails exactly when the descriptor cannot be put in
    non-blocking mode, whatever the three setsockopt calls answer.  On the
    completion backend the adopted object never calls ConnectEx: it holds two
    references, one for the handle and one for the "connected" notification
    it posted to itself, and the delivery of that notification connects it. *)
Theorem from_native_fd_adopts (fd : NativeFd) (os : OptionsOs) :
  (forall e, set_is_blocking_unsafe os = Error e ->
     Posix.from_native_fd fd os = Err e /\
     Iocp.from_native_fd fd os = Done (Err e)) /\
  (set_is_blocking_unsafe os = OK ->
     Posix.from_native_fd fd os =
       Ok (Posix.mkSocketFd (Some (Posix.mkImpl (mkInfo fd PollFlags.empty)))) /\
     exists w,
       Iocp.from_native_fd fd os = Done (Ok (Iocp.mkSystem true w)) /\
       Iocp.refcnt_ (Iocp.impl w) = 2 /\
       Iocp.posted w = [Iocp.read_overlapped_] /\
       Iocp.is_connected_ (Iocp.impl w) = false /\
       Iocp.trace w =
         [Iocp.Ev_subscribe; Iocp.Ev_inc_refcnt; Iocp.Ev_post Iocp.read_overlapped_] /\
       forall size region os_recv os_send w',
         Iocp.on_iocp (Ok size) Iocp.read_overlapped_ region os_recv os_send (Iocp.take 0 w)
           = Done (tt, w') ->
         Iocp.is_connected_ (Iocp.impl w') = true).
Proof.
  unfold Posix.from_native_fd, Iocp.from_native_fd, init_socket_options.
  split.
  - intros e ->. split; reflexivity.
  - intros ->. split; [reflexivity |].
    eexists. split; [reflexivity |].
    split; [reflexivity |]. split; [reflexivity |]. split; [reflexivity |].
    split; [reflexivity |].
    intros size region os_recv os_send w' H.
    vm_compute Iocp.take in H. unfold_methods H.
    change (Iocp.wrap_int (2 - 1)) with 1 in H.
    cbn [Z.eqb Pos.eqb] in H.
    repeat (break_hyp H; try discriminate H);
      injection H as <-; reflexivity.
Qed.

Lemma from_native_fd_adopts_witness :
  exists w,
    Iocp.from_native_fd 7 options_refused = Done (Ok (Iocp.mkSystem true w)) /\
    Iocp.refcnt_ (Iocp.impl w) = 2 /\
    Iocp.posted w = [Iocp.read_overlapped_] /\
    Iocp.is_connected_ (Iocp.impl w) = false /\
    Iocp.trace w =
      [Iocp.Ev_subscribe; Iocp.Ev_inc_refcnt; Iocp.Ev_post Iocp.read_overlapped_] /\
    forall size region os_recv os_send w',
      Iocp.on_iocp (Ok size) Iocp.read_overlapped_ region os_recv os_send (Iocp.take 0 w)
        = Done (tt, w') ->
      Iocp.is_connected_ (Iocp.impl w') = true.
Proof.
  exact (proj2 (proj2 (from_native_fd_adopts 7 options_refused) eq_refl)).
Defined.

(** ** Completion backend: the queue of pending errors *)

Lemma on_error_effect status w :
  Iocp.on_error status w =
  Done (tt, Iocp.mkWorld
              (Iocp.set_info (info_add_flags PollFlags.Error)
                 (Iocp.set_pending_errors
                    (Iocp.pending_errors_ (Iocp.impl w) ++ [status]) (Iocp.impl w)))
              (Iocp.posted w) (Iocp.deleted w) (Iocp.trace w)).
Proof. reflexivity. Qed.

Lemma report_all_effect es : forall w,
  exists w',
    report_all es w = Done (tt, w') /\
    Iocp.pending_errors_ (Iocp.impl w') = Iocp.pending_errors_ (Iocp.impl w) ++ map Error es /\
    PollFlags.error (Iocp.get_flags w') =
      PollFlags.error (Iocp.get_flags w) || negb (Iocp.is_nil es).
Proof.
  induction es as [| e es IH]; intros w.
  - exists w. cbn. rewrite app_nil_r, orb_false_r. repeat split.
  - cbn [report_all]. unfold bind at 1. rewrite on_error_effect.
    destruct (IH (Iocp.mkWorld
              (Iocp.set_info (info_add_flags PollFlags.Error)
                 (Iocp.set_pending_errors
                    (Iocp.pending_errors_ (Iocp.impl w) ++ [Error e]) (Iocp.impl w)))
              (Iocp.posted w) (Iocp.deleted w) (Iocp.trace w))) as (w' & H1 & H2 & H3).
    exists w'. split; [exact H1 |]. split.
    + rewrite H2. destruct w as [[inf rc cf ic ira inp pe iwa iww outp] q d t]. cbn.
      rewrite <- app_assoc. reflexivity.
    + rewrite H3. destruct w as [[[nfd [fw fr fc fe]] rc cf ic ira inp pe iwa iww outp] q d t].
      cbn. rewrite orb_true_r. reflexivity.
Qed.

Lemma get_pending_error_pop e rest w :
  Iocp.pending_errors_ (Iocp.impl w) = Error e :: rest ->
  Iocp.get_pending_error w =
  Done (Error e, Iocp.mkWorld (Iocp.set_pending_errors rest (Iocp.impl w))
                   (Iocp.posted w) (Iocp.deleted w) (Iocp.trace w)).
Proof.
  destruct w as [[inf rc cf ic ira inp pe iwa iww outp] ps d t].
  cbn [Iocp.impl Iocp.pending_errors_]. intros ->. reflexivity.
Qed.

Lemma get_pending_error_empty w :
  Iocp.pending_errors_ (Iocp.impl w) = [] ->
  Iocp.get_pending_error w =
  Done (OK, Iocp.mkWorld (Iocp.set_info (info_clear_flags PollFlags.Error) (Iocp.impl w))
              (Iocp.posted w) (Iocp.deleted w) (Iocp.trace w)).
Proof.
  destruct w as [[inf rc cf ic ira inp pe iwa iww outp] ps d t].
  cbn [Iocp.impl Iocp.pending_errors_]. intros ->. reflexivity.
Qed.

Lemma drain_step n :
  drain (S n) = (s <- Iocp.get_pending_error ;; rest <- drain n ;; ret (s :: rest)).
Proof. reflexivity. Qed.

Lemma drain_errors q : forall rest w,
  Iocp.pending_errors_ (Iocp.impl w) = map Error q ++ rest ->
  exists w',
    drain (List.length q) w = Done (map Error q, w') /\
    Iocp.pending_errors_ (Iocp.impl w') = rest /\
    Iocp.get_flags w' = Iocp.get_flags w.
Proof.
  induction q as [| e q IH]; intros rest w Hq.
  - exists w. repeat split. exact Hq.
  - cbn [List.length]. rewrite drain_step. unfold bind at 1.
    rewrite (get_pending_error_pop e (map Error q ++ rest) w Hq).
    destruct (IH rest (Iocp.mkWorld
                         (Iocp.set_pending_errors (map Error q ++ rest) (Iocp.impl w))
                         (Iocp.posted w) (Iocp.deleted w) (Iocp.trace w)) eq_refl)
      as (w' & H1 & H2 & H3).
    unfold bind. rewrite H1. exists w'. repeat split; assumption.
Qed.

Lemma drain_to_the_end q : forall w,
  Iocp.pending_errors_ (Iocp.impl w) = map Error q ->
  exists w',
    drain (S (List.length q)) w = Done (map Error q ++ [OK], w') /\
    Iocp.pending_errors_ (Iocp.impl w') = [] /\
    PollFlags.error (Iocp.get_flags w') = false.
Proof.
  induction q as [| e q IH]; intros w Hq.
  - cbn [List.length]. rewrite drain_step. unfold bind at 1.
    rewrite (get_pending_error_empty w Hq).
    eexists. split; [reflexivity |]. split; [exact Hq |].
    destruct w as [[[nfd [fw fr fc fe]] rc cf ic ira inp pe iwa iww outp] ps d t].
    cbn. apply andb_false_r.
  - cbn [List.length]. rewrite drain_step. unfold bind at 1.
    rewrite (get_pending_error_pop e (map Error q) w Hq).
    destruct (IH (Iocp.mkWorld (Iocp.set_pending_errors (map Error q) (Iocp.impl w))
                    (Iocp.posted w) (Iocp.deleted w) (Iocp.trace w)) eq_refl)
      as (w' & H1 & H2 & H3).
    unfold bind. rewrite H1. exists w'. repeat split; assumption.
Qed.

(** X4: the errors reported by completions come back from
    [get_pending_error] in the order they were reported, each once, with the
    Error flag latched all the while; the call after the last one returns OK
    and clears the flag. *)
Theorem iocp_pending_errors_fifo (es : list ErrorInfo) (w : Iocp.World) :
  Iocp.pending_errors_ (Iocp.impl w) = [] ->
  (exists w1,
     (report_all es ;; drain (List.length es)) w = Done (map Error es, w1) /\
     Iocp.pending_errors_ (Iocp.impl w1) = [] /\
     (es <> [] -> PollFlags.error (Iocp.get_flags w1) = true)) /\
  (exists w2,
     (report_all es ;; drain (S (List.length es))) w = Done (map Error es ++ [OK], w2) /\
     Iocp.pending_errors_ (Iocp.impl w2) = [] /\
     PollFlags.error (Iocp.get_flags w2) = false).
Proof.
  intros Hq. destruct (report_all_effect es w) as (w0 & H0 & Hpe & Hfl).
  rewrite Hq in Hpe. cbn [app] in Hpe.
  split.
  - destruct (drain_errors es [] w0) as (w1 & H1 & H2 & H3).
    { rewrite Hpe, app_nil_r. reflexivity. }
    exists w1. unfold bind. rewrite H0. split; [exact H1 |]. split; [exact H2 |].
    intros Hne. rewrite H3, Hfl. destruct es; [congruence |]. apply orb_true_r.
  - destruct (drain_to_the_end es w0 Hpe) as (w2 & H1 & H2 & H3).
    exists w2. unfold bind. rewrite H0. repeat split; assumption.
Qed.

Lemma iocp_pending_errors_fifo_witness :
  (exists w1,
     (report_all [mkError 1 []; mkError 2 []] ;; drain 2) connected =
       Done ([Error (mkError 1 []); Error (mkError 2 [])], w1) /\
     Iocp.pending_errors_ (Iocp.impl w1) = [] /\
     ([mkError 1 []; mkError 2 []] <> [] -> PollFlags.error (Iocp.get_flags w1) = true)) /\
  (exists w2,
     (report_all [mkError 1 []; mkError 2 []] ;; drain 3) connected =
       Done ([Error (mkError 1 []); Error (mkError 2 [])] ++ [OK], w2) /\
     Iocp.pending_errors_ (Iocp.impl w2) = [] /\
     PollFlags.error (Iocp.get_flags w2) = false).
Proof.
  exact (iocp_pending_errors_fifo [mkError 1 []; mkError 2 []] connected eq_refl).
Defined.

(** ** Completion backend: directions that have stopped *)

Ltac start_from HI :=
  let Hb := fresh "Hb" in
  pose proof (Inv_bounds _ HI) as Hb;
  match goal with
  | s : Iocp.System |- _ =>
      destruct s as [h [[[nfd [fw fr fc fe]] rc cf ic ira inp pe iwa iww outp] q d t]]
  end;
  destruct HI as [[Hr Hd] (C1 & C2 & C3 & C4 & C5 & C6 & C7 & C8)];
  cbn [Iocp.world Iocp.impl Iocp.posted Iocp.deleted Iocp.handle Iocp.refcnt_ Iocp.trace
       Iocp.is_read_active_ Iocp.is_write_waiting_ Iocp.is_connected_ Iocp.info
       Iocp.close_flag_ Iocp.is_write_active_ flags PollFlags.close] in *.

(** The calls made on one path extend the trace by calls of the wanted kind. *)
Ltac trace_grows :=
  first [ exists []; split; [symmetry; apply app_nil_r | reflexivity]
        | rewrite <- ?app_assoc; eexists; split; reflexivity ].

Ltac idle_settle H :=
  injection H; clear H; intros;
  match goal with w' : Iocp.World |- _ => subst w' end;
  unfold read_idle, Iocp.no_read_since;
  cbn [Iocp.world Iocp.impl Iocp.posted Iocp.trace];
  rewrite ?count_app, ?count_one; cbn [Iocp.Overlapped_eqb];
  split; [lia | trace_grows].

Lemma idle_on_iocp r_size overlapped region os_recv os_send i s w' :
  Iocp.Inv s -> read_idle s ->
  nth_error (Iocp.posted (Iocp.world s)) i = Some overlapped ->
  Iocp.on_iocp r_size overlapped region os_recv os_send (Iocp.take i (Iocp.world s))
    = Done (tt, w') ->
  read_idle (Iocp.mkSystem (Iocp.handle s) w') /\
  Iocp.no_read_since (Iocp.trace (Iocp.world s)) (Iocp.trace w').
Proof.
  intros HI HE Hn H. start_from HI. unfold read_idle in HE. cbn [Iocp.world Iocp.posted] in HE.
  pose proof (count_remove_nth Iocp.read_overlapped_ _ _ _ Hn) as R1.
  pose proof (count_remove_nth Iocp.foreign_overlapped _ _ _ Hn) as R5.
  unfold_methods H.
  destruct overlapped; cbn [Iocp.Overlapped_eqb] in *; try lia;
    repeat (break_hyp H; try discriminate H);
    idle_settle H.
Qed.

Ltac idle_call HI HE H :=
  start_from HI; unfold read_idle in HE; cbn [Iocp.world Iocp.posted] in HE;
  unfold_methods H; unfold_flags H;
  repeat (break_hyp H; try discriminate H);
  idle_settle H.

Lemma idle_step s s' :
  Iocp.Inv s -> read_idle s -> Iocp.step s s' ->
  read_idle s' /\
  Iocp.no_read_since (Iocp.trace (Iocp.world s)) (Iocp.trace (Iocp.world s')).
Proof.
  intros HI HE Hstep. destruct Hstep as [s data r w' Hh H | s slice r w' Hh H
    | s r w' Hh H | s w' Hh H | s i ov r_size region os_recv os_send w' Hn H].
  - idle_call HI HE H.
  - idle_call HI HE H.
  - idle_call HI HE H.
  - idle_call HI HE H.
  - eapply idle_on_iocp; eassumption.
Qed.

Lemma idle_steps s s' :
  Iocp.Inv s -> read_idle s -> Iocp.steps s s' ->
  Iocp.Inv s' /\ read_idle s' /\
  Iocp.no_read_since (Iocp.trace (Iocp.world s)) (Iocp.trace (Iocp.world s')).
Proof.
  intros HI HE Hsteps. induction Hsteps as [s | s1 s2 s3 H12 IH H23].
  - split; [assumption | split; [assumption | apply no_read_since_refl]].
  - destruct (IH HI HE) as (HI2 & HE2 & Ht).
    destruct (idle_step _ _ HI2 HE2 H23) as [HE3 Ht3].
    split; [eapply Inv_step; eassumption |].
    split; [exact HE3 | eapply no_read_since_trans; eassumption].
Qed.

(** X5: when a read (or connect) completion that is not ignored carries an
    error, the error is queued and the Error flag latched, the Closed flag
    and the connection state stay as they were, and WSARecv is never called
    again for that socket. *)
Theorem iocp_error_stops_reading e region os_recv os_send i s w1 s2 :
  Iocp.reachable s ->
  nth_error (Iocp.posted (Iocp.world s)) i = Some Iocp.read_overlapped_ ->
  Iocp.close_flag_ (Iocp.impl (Iocp.world s)) = false ->
  Iocp.refcnt_ (Iocp.impl (Iocp.world s)) <> 1 ->
  Iocp.on_iocp (Err e) Iocp.read_overlapped_ region os_recv os_send
    (Iocp.take i (Iocp.world s)) = Done (tt, w1) ->
  Iocp.steps (Iocp.mkSystem (Iocp.handle s) w1) s2 ->
  Iocp.pending_errors_ (Iocp.impl w1) =
    Iocp.pending_errors_ (Iocp.impl (Iocp.world s)) ++ [Error e] /\
  PollFlags.error (Iocp.get_flags w1) = true /\
  PollFlags.close (Iocp.get_flags w1) = PollFlags.close (Iocp.get_flags (Iocp.world s)) /\
  Iocp.is_connected_ (Iocp.impl w1) = Iocp.is_connected_ (Iocp.impl (Iocp.world s)) /\
  Iocp.no_read_since (Iocp.trace (Iocp.world s)) (Iocp.trace (Iocp.world s2)).
Proof.
  intros Hreach Hn Hcf Hrc H Hsteps.
  pose proof (reachable_Inv _ Hreach) as HI.
  assert (HI1 : Iocp.Inv (Iocp.mkSystem (Iocp.handle s) w1))
    by (eapply Inv_on_iocp; eassumption).
  assert (Hfirst :
    Iocp.pending_errors_ (Iocp.impl w1) =
      Iocp.pending_errors_ (Iocp.impl (Iocp.world s)) ++ [Error e] /\
    PollFlags.error (Iocp.get_flags w1) = true /\
    PollFlags.close (Iocp.get_flags w1) = PollFlags.close (Iocp.get_flags (Iocp.world s)) /\
    Iocp.is_connected_ (Iocp.impl w1) = Iocp.is_connected_ (Iocp.impl (Iocp.world s)) /\
    read_idle (Iocp.mkSystem (Iocp.handle s) w1) /\
    Iocp.no_read_since (Iocp.trace (Iocp.world s)) (Iocp.trace w1)).
  { clear Hsteps HI1 Hreach s2. start_from HI. subst cf.
    assert (Hr1 : 1 <= rc).
    { pose proof (length_remove_nth _ _ _ Hn). destruct h; cbn [Z.b2z] in *; lia. }
    pose proof (count_remove_nth Iocp.read_overlapped_ _ _ _ Hn) as R1.
    cbn [Iocp.Overlapped_eqb] in R1.
    unfold_methods H. unwrap_in H.
    repeat (break_hyp H; try discriminate H); bool_props; try lia.
    injection H as <-. unfold read_idle, Iocp.no_read_since, Iocp.get_flags.
    cbn [Iocp.impl Iocp.info Iocp.pending_errors_ Iocp.is_connected_ Iocp.posted
         Iocp.world Iocp.trace info_add_flags flags PollFlags.union PollFlags.Error
         PollFlags.error PollFlags.close].
    rewrite orb_false_r, orb_true_r.
    split; [reflexivity |]. split; [reflexivity |]. split; [reflexivity |].
    split; [reflexivity |].
    split; [lia | exists [Iocp.Ev_dec_refcnt]; split; reflexivity]. }
  destruct Hfirst as (F1 & F2 & F3 & F4 & F5 & F6).
  destruct (idle_steps _ _ HI1 F5 Hsteps) as (_ & _ & Ht).
  repeat split; try assumption.
  eapply no_read_since_trans; eassumption.
Qed.

Lemma iocp_error_stops_reading_witness :
  Iocp.pending_errors_ (Iocp.impl failed) =
    Iocp.pending_errors_ (Iocp.impl connected) ++ [Error (mkError 10054 [Str "reset"])] /\
  PollFlags.error (Iocp.get_flags failed) = true /\
  PollFlags.close (Iocp.get_flags failed) = PollFlags.close (Iocp.get_flags connected) /\
  Iocp.is_connected_ (Iocp.impl failed) = Iocp.is_connected_ (Iocp.impl connected) /\
  Iocp.no_read_since (Iocp.trace connected) (Iocp.trace failed).
Proof.
  refine (iocp_error_stops_reading (mkError 10054 [Str "reset"]) [] pending pending 0%nat
            (Iocp.mkSystem true connected) failed (Iocp.mkSystem true failed)
            _ _ _ _ _ _).
  - apply (Iocp.reachable_step (Iocp.mkSystem true adopted)).
    + apply (Iocp.reachable_adopt 7). reflexivity.
    + apply (Iocp.step_on_iocp (Iocp.mkSystem true adopted) 0 Iocp.read_overlapped_
               (Ok 0%N) [] pending pending); reflexivity.
  - reflexivity.
  - reflexivity.
  - discriminate.
  - reflexivity.
  - apply Iocp.steps_refl.
Defined.

(** ** Completion backend: the outbound buffer *)

Lemma prepare_after_sync b :
  Iocp.prepare_read (Iocp.sync_with_writer b) = Iocp.chain b.
Proof.
  unfold Iocp.prepare_read, Iocp.sync_with_writer. cbn. apply firstn_all.
Qed.

Lemma is_nil_true {A} (l : list A) : Iocp.is_nil l = true -> l = [].
Proof. destruct l; [reflexivity | discriminate]. Qed.

Lemma is_nil_false {A} (l : list A) : Iocp.is_nil l = false -> l <> [].
Proof. destruct l; [discriminate | intros _ H; discriminate H]. Qed.

(** Bring the tests on the outbound buffer into the form of the statements. *)
Ltac buffer_facts :=
  rewrite ?prepare_after_sync in *;
  cbn [Iocp.confirm_read Iocp.append Iocp.chain] in *;
  repeat match goal with
         | H : Iocp.is_nil _ = true |- _ => apply is_nil_true in H
         | H : Iocp.is_nil _ = false |- _ => apply is_nil_false in H
         end.

Lemma size_skipn_le n (l : list Byte.byte) : (size (skipn n l) <= size l)%N.
Proof. unfold size. rewrite length_skipn. lia. Qed.

(** ** Completion backend: what the CHECKs rely on *)

Ltac checks_settle H :=
  injection H; clear H; intros;
  match goal with w' : Iocp.World |- _ => subst w' end;
  unfold checks_hold;
  cbn [Iocp.world Iocp.impl Iocp.posted Iocp.handle Iocp.is_connected_
       Iocp.is_write_active_ Iocp.is_write_waiting_ Iocp.close_flag_ Iocp.output_];
  rewrite ?count_app, ?count_one, ?count_nil;
  cbn [Iocp.Overlapped_eqb];
  buffer_facts; cbn [Iocp.sync_with_writer Iocp.buf_empty Iocp.chain];
  bool_props; finish.

Lemma checks_on_iocp r_size overlapped region os_recv os_send i s w' :
  Iocp.Inv s -> checks_hold s ->
  nth_error (Iocp.posted (Iocp.world s)) i = Some overlapped ->
  Iocp.on_iocp r_size overlapped region os_recv os_send (Iocp.take i (Iocp.world s))
    = Done (tt, w') ->
  checks_hold (Iocp.mkSystem (Iocp.handle s) w').
Proof.
  intros HI HC Hn H. start_from HI.
  destruct HC as (K1 & K2 & K3 & K4 & K5).
  cbn [Iocp.world Iocp.impl Iocp.posted Iocp.handle Iocp.is_connected_
       Iocp.is_write_active_ Iocp.is_write_waiting_ Iocp.close_flag_ Iocp.output_] in *.
  pose proof (count_remove_nth Iocp.read_overlapped_ _ _ _ Hn) as R1.
  pose proof (count_remove_nth Iocp.write_overlapped_ _ _ _ Hn) as R2.
  pose proof (count_remove_nth Iocp.nullptr _ _ _ Hn) as R3.
  pose proof (count_remove_nth Iocp.close_overlapped_ _ _ _ Hn) as R4.
  pose proof (count_remove_nth Iocp.foreign_overlapped _ _ _ Hn) as R5.
  clear Hr Hd Hb Hn.
  unfold_methods H.
  destruct overlapped, h, ira, iww, ic, iwa;
    cbn [Iocp.Overlapped_eqb] in *; use_imps; try lia;
    repeat (break_hyp H; try discriminate H).
  all: checks_settle H.
Qed.

Ltac checks_call HI HC Hh H :=
  start_from HI;
  destruct HC as (K1 & K2 & K3 & K4 & K5);
  cbn [Iocp.world Iocp.impl Iocp.posted Iocp.handle Iocp.is_connected_
       Iocp.is_write_active_ Iocp.is_write_waiting_ Iocp.close_flag_ Iocp.output_] in *;
  rewrite Hh in *; use_imps;
  unfold_methods H; unfold_flags H;
  repeat (break_hyp H; try discriminate H);
  checks_settle H.

Lemma checks_step s s' :
  Iocp.Inv s -> checks_hold s -> Iocp.step s s' -> checks_hold s'.
Proof.
  intros HI HC Hstep. destruct Hstep as [s data r w' Hh H | s slice r w' Hh H
    | s r w' Hh H | s w' Hh H | s i ov r_size region os_recv os_send w' Hn H].
  - checks_call HI HC Hh H.
  - checks_call HI HC Hh H.
  - checks_call HI HC Hh H.
  - checks_call HI HC Hh H.
  - eapply checks_on_iocp; eassumption.
Qed.

Lemma reachable_checks s : Iocp.reachable s -> checks_hold s.
Proof.
  induction 1 as [fd w H | fd ioctl connect w H | s s' Hreach IH Hstep].
  - vm_compute in H. checks_settle H.
  - unfold_methods H. repeat (break_hyp H; try discriminate H); checks_settle H.
  - eapply checks_step; [apply reachable_Inv |..]; eassumption.
Qed.

(** X6: at most one operation per direction is outstanding on any state a
    socket can reach: at most one read (or connect) completion, at most one
    write completion or wake-up, at most one close notification; a read
    completion is outstanding only while [is_read_active_] is set, a write
    completion only while [is_write_active_] is set, and none of the write
    side before the socket is connected. *)
Theorem iocp_one_operation_per_direction (s : Iocp.System) :
  Iocp.reachable s ->
  let o := Iocp.impl (Iocp.world s) in
  let q := Iocp.posted (Iocp.world s) in
  (Iocp.count Iocp.read_overlapped_ q <= 1)%nat /\
  (Iocp.count Iocp.write_overlapped_ q + Iocp.count Iocp.nullptr q <= 1)%nat /\
  (Iocp.count Iocp.close_overlapped_ q <= 1)%nat /\
  (Iocp.is_read_active_ o = false -> Iocp.count Iocp.read_overlapped_ q = 0%nat) /\
  (Iocp.is_write_active_ o = false -> Iocp.count Iocp.write_overlapped_ q = 0%nat) /\
  (Iocp.is_connected_ o = false ->
     (Iocp.count Iocp.write_overlapped_ q + Iocp.count Iocp.nullptr q = 0)%nat).
Proof.
  intros Hreach. cbv zeta.
  destruct (reachable_Inv _ Hreach) as [_ (C1 & C2 & C3 & C4 & C5 & C6 & C7 & C8)].
  destruct (reachable_checks _ Hreach) as (K1 & K2 & K3 & K4 & K5).
  split; [exact C1 |]. split; [exact C3 |]. split; [exact C6 |].
  split; [exact C2 |]. split; [exact K2 |].
  intros Hic. apply C5. exact Hic.
Qed.

Lemma iocp_one_operation_per_direction_witness :
  (Iocp.count Iocp.read_overlapped_ (Iocp.posted sending) <= 1)%nat /\
  (Iocp.count Iocp.write_overlapped_ (Iocp.posted sending) +
   Iocp.count Iocp.nullptr (Iocp.posted sending) <= 1)%nat /\
  (Iocp.count Iocp.close_overlapped_ (Iocp.posted sending) <= 1)%nat /\
  (Iocp.is_read_active_ (Iocp.impl sending) = false ->
   Iocp.count Iocp.read_overlapped_ (Iocp.posted sending) = 0%nat) /\
  (Iocp.is_write_active_ (Iocp.impl sending) = false ->
   Iocp.count Iocp.write_overlapped_ (Iocp.posted sending) = 0%nat) /\
  (Iocp.is_connected_ (Iocp.impl sending) = false ->
   (Iocp.count Iocp.write_overlapped_ (Iocp.posted sending) +
    Iocp.count Iocp.nullptr (Iocp.posted sending) = 0)%nat).
Proof.
  refine (iocp_one_operation_per_direction (Iocp.mkSystem true sending) _).
  apply (Iocp.reachable_step
           (Iocp.mkSystem true (run_world (_ <- Iocp.write hello ;; ret tt) connected))).
  - apply (Iocp.reachable_step (Iocp.mkSystem true connected)).
    + apply (Iocp.reachable_step (Iocp.mkSystem true adopted)).
      * apply (Iocp.reachable_adopt 7). reflexivity.
      * apply (Iocp.step_on_iocp (Iocp.mkSystem true adopted) 0 Iocp.read_overlapped_
                 (Ok 0%N) [] pending pending); reflexivity.
    + apply (Iocp.step_write (Iocp.mkSystem true connected) hello (Ok 5%N)); reflexivity.
  - apply (Iocp.step_on_iocp
             (Iocp.mkSystem true (run_world (_ <- Iocp.write hello ;; ret tt) connected))
             1 Iocp.nullptr (Ok 0%N) [] pending pending); reflexivity.
Defined.

(** X7: no leak and no early deletion: on any state a socket can reach, the
    object has been deleted exactly when the handle has let go of it and
    every completion has been delivered. *)
Theorem iocp_deleted_when_released (s : Iocp.System) :
  Iocp.reachable s ->
  (Iocp.deleted (Iocp.world s) = 1%nat <->
   Iocp.handle s = false /\ Iocp.posted (Iocp.world s) = []) /\
  (Iocp.deleted (Iocp.world s) = 0%nat <->
   Iocp.handle s = true \/ Iocp.posted (Iocp.world s) <> []).
Proof.
  intros Hreach. destruct (reachable_Inv _ Hreach) as [[Hr Hd] _].
  destruct s as [h [o q d t]].
  cbn [Iocp.world Iocp.handle Iocp.posted Iocp.deleted Iocp.impl] in *.
  assert (Hz : Iocp.refcnt_ o = 0 <-> (h = false /\ q = [])).
  { rewrite Hr. destruct h, q as [| x q]; cbn [Z.b2z List.length]; split.
    all: try (intros [? ?]; discriminate).
    all: try (intros; lia).
    intros _. split; reflexivity. }
  assert (Hnz : Iocp.refcnt_ o <> 0 <-> (h = true \/ q <> [])).
  { rewrite Hz. destruct h, q as [| x q]; split.
    all: try (intros; left; reflexivity).
    all: try (intros; right; discriminate).
    all: try (intros _ [? ?]; discriminate).
    - intros H. exfalso. apply H. split; reflexivity.
    - intros [H | H]; [discriminate | congruence]. }
  rewrite Hd. destruct (Z.eqb_spec (Iocp.refcnt_ o) 0) as [E | E].
  - split; split; try (intros; discriminate).
    + intros _. apply Hz. exact E.
    + intros _. reflexivity.
    + intros H. apply Hnz in H. contradiction.
  - split; split; try (intros; discriminate).
    + intros H. apply Hz in H. contradiction.
    + intros _. apply Hnz. exact E.
    + intros _. reflexivity.
Qed.

Lemma iocp_deleted_when_released_witness :
  (Iocp.deleted released = 1%nat <-> false = false /\ Iocp.posted released = []) /\
  (Iocp.deleted released = 0%nat <-> false = true \/ Iocp.posted released <> []).
Proof.
  refine (iocp_deleted_when_released (Iocp.mkSystem false released) _).
  apply (Iocp.reachable_step (Iocp.mkSystem false closed)).
  - apply (Iocp.reachable_step (Iocp.mkSystem false closing)).
    + apply (Iocp.reachable_step (Iocp.mkSystem true connected)).
      * apply (Iocp.reachable_step (Iocp.mkSystem true adopted)).
        -- apply (Iocp.reachable_adopt 7). reflexivity.
        -- apply (Iocp.step_on_iocp (Iocp.mkSystem true adopted) 0 Iocp.read_overlapped_
                    (Ok 0%N) [] pending pending); reflexivity.
      * apply (Iocp.step_close (Iocp.mkSystem true connected)); reflexivity.
    + apply (Iocp.step_on_iocp (Iocp.mkSystem false closing) 1 Iocp.close_overlapped_
               (Ok 0%N) [] pending pending); reflexivity.
  - apply (Iocp.step_on_iocp (Iocp.mkSystem false closed) 0 Iocp.read_overlapped_
             (Ok 0%N) [] pending pending); reflexivity.
Defined.

Ltac unwrap_all :=
  repeat match goal with
         | H : context [Iocp.wrap_int ?z] |- _ => rewrite (wrap_int_small z) in H by lia
         end.

(** The narrowing of the length of a slice of the outbound buffer passes
    when the buffer holds no more than a ULONG can count. *)
Ltac narrowing_fits :=
  repeat match goal with
         | H : (size (skipn ?n ?l) <=? _)%N = false |- _ =>
             apply N.leb_gt in H; pose proof (size_skipn_le n l)
         | H : (size _ <=? _)%N = false |- _ => apply N.leb_gt in H
         end.

(** X8: the callbacks never abort on the state of the object.  On any state a
    socket can reach with no more bytes staged for sending than a ULONG can
    count, the delivery of any outstanding completion, whatever result it
    carries and whatever the system answers to the operations submitted on
    the way, returns normally: no CHECK on the flags or on the reference
    count fires, the narrowing of the length handed to WSASend passes and
    UNREACHABLE is not reached (the wake-up posted by [notify_iocp_write]
    carries size 0, as [Iocp::post(0, ...)] posts it).  The narrowing of the
    length of the receive area in [loop_read] is outside the model. *)
Theorem iocp_callbacks_never_abort r_size overlapped region os_recv os_send i s :
  Iocp.reachable s ->
  nth_error (Iocp.posted (Iocp.world s)) i = Some overlapped ->
  (overlapped = Iocp.nullptr -> r_size = Ok 0%N) ->
  (size (Iocp.chain (Iocp.output_ (Iocp.impl (Iocp.world s)))) <= Iocp.ULONG_MAX)%N ->
  exists w',
    Iocp.on_iocp r_size overlapped region os_recv os_send (Iocp.take i (Iocp.world s))
      = Done (tt, w').
Proof.
  intros Hreach Hn Hnull Hlen.
  pose proof (reachable_Inv _ Hreach) as HI.
  pose proof (reachable_checks _ Hreach) as HC.
  destruct (Iocp.on_iocp r_size overlapped region os_recv os_send
              (Iocp.take i (Iocp.world s))) as [[[] w'] | why] eqn:H;
    [exists w'; reflexivity | exfalso].
  clear Hreach. start_from HI.
  destruct HC as (K1 & K2 & K3 & K4 & K5).
  cbn [Iocp.world Iocp.impl Iocp.posted Iocp.handle Iocp.is_connected_
       Iocp.is_write_active_ Iocp.is_write_waiting_ Iocp.close_flag_ Iocp.output_] in *.
  pose proof (length_remove_nth _ _ _ Hn) as Hlen1.
  pose proof (count_remove_nth Iocp.read_overlapped_ _ _ _ Hn) as R1.
  pose proof (count_remove_nth Iocp.write_overlapped_ _ _ _ Hn) as R2.
  pose proof (count_remove_nth Iocp.nullptr _ _ _ Hn) as R3.
  pose proof (count_remove_nth Iocp.foreign_overlapped _ _ _ Hn) as R5.
  assert (Hr1 : 1 <= rc) by (destruct h; cbn [Z.b2z] in *; lia).
  clear Hd Hn K3 K4 K5 C6 C7.
  unfold_methods H. unwrap_in H.
  destruct overlapped, ira, iww, ic, iwa;
    cbn [Iocp.Overlapped_eqb] in *; use_imps; try lia; try discriminate;
    try (rewrite Hnull in H);
    repeat (break_hyp H; try discriminate H);
    bool_props; unwrap_all; buffer_facts; narrowing_fits; lia.
Qed.

Lemma iocp_callbacks_never_abort_witness :
  exists w',
    Iocp.on_iocp (Ok 2%N) Iocp.write_overlapped_ [] pending pending (Iocp.take 1 sending)
      = Done (tt, w').
Proof.
  refine (iocp_callbacks_never_abort (Ok 2%N) Iocp.write_overlapped_ [] pending pending
            1%nat (Iocp.mkSystem true sending) _ eq_refl _ _).
  - apply (Iocp.reachable_step
             (Iocp.mkSystem true (run_world (_ <- Iocp.write hello ;; ret tt) connected))).
    + apply (Iocp.reachable_step (Iocp.mkSystem true connected)).
      * apply (Iocp.reachable_step (Iocp.mkSystem true adopted)).
        -- apply (Iocp.reachable_adopt 7). reflexivity.
        -- apply (Iocp.step_on_iocp (Iocp.mkSystem true adopted) 0 Iocp.read_overlapped_
                    (Ok 0%N) [] pending pending); reflexivity.
      * apply (Iocp.step_write (Iocp.mkSystem true connected) hello (Ok 5%N)); reflexivity.
    + apply (Iocp.step_on_iocp
               (Iocp.mkSystem true (run_world (_ <- Iocp.write hello ;; ret tt) connected))
               1 Iocp.nullptr (Ok 0%N) [] pending pending); reflexivity.
  - discriminate.
  - vm_compute. discriminate.
Defined.

(** ** Completion backend: after close *)

Lemma no_io_since_refl t : no_io_since t t.
Proof. exists []. split; [symmetry; apply app_nil_r | reflexivity]. Qed.

Lemma no_io_since_trans t1 t2 t3 :
  no_io_since t1 t2 -> no_io_since t2 t3 -> no_io_since t1 t3.
Proof.
  intros [l1 [-> H1]] [l2 [-> H2]]. exists (l1 ++ l2). split.
  - symmetry. apply app_assoc.
  - rewrite existsb_app, H1, H2. reflexivity.
Qed.

Lemma closed_on_iocp r_size overlapped region os_recv os_send w w' :
  Iocp.close_flag_ (Iocp.impl w) = true ->
  Iocp.on_iocp r_size overlapped region os_recv os_send w = Done (tt, w') ->
  same_but_refcnt (Iocp.impl w) (Iocp.impl w') /\
  no_io_since (Iocp.trace w) (Iocp.trace w').
Proof.
  intros Hcf H. destruct w as [[inf rc cf ic ira inp pe iwa iww outp] q d t].
  cbn [Iocp.impl Iocp.close_flag_ Iocp.trace] in *. subst cf.
  unfold_methods H.
  repeat (break_hyp H; try discriminate H);
    injection H as <-; (split; [reflexivity | cbn [Iocp.trace]; trace_grows]).
Qed.

Lemma closed_steps s s' :
  Iocp.handle s = false ->
  Iocp.close_flag_ (Iocp.impl (Iocp.world s)) = true ->
  Iocp.steps s s' ->
  Iocp.handle s' = false /\
  same_but_refcnt (Iocp.impl (Iocp.world s)) (Iocp.impl (Iocp.world s')) /\
  no_io_since (Iocp.trace (Iocp.world s)) (Iocp.trace (Iocp.world s')).
Proof.
  intros Hh Hcf Hsteps. induction Hsteps as [s | s1 s2 s3 H12 IH H23].
  - split; [exact Hh |]. split; [reflexivity | apply no_io_since_refl].
  - destruct (IH Hh Hcf) as (Hh2 & Hsame & Ht).
    assert (Hcf2 : Iocp.close_flag_ (Iocp.impl (Iocp.world s2)) = true).
    { unfold same_but_refcnt in Hsame.
      apply (f_equal Iocp.close_flag_) in Hsame.
      destruct (Iocp.impl (Iocp.world s1)), (Iocp.impl (Iocp.world s2)).
      cbn in *. congruence. }
    destruct H23 as [s data r w' Hh' H | s slice r w' Hh' H
      | s r w' Hh' H | s w' Hh' H | s i ov r_size region os_recv os_send w' Hn H];
      try congruence.
    destruct (closed_on_iocp _ _ _ _ _ (Iocp.take i (Iocp.world s)) _ Hcf2 H)
      as [Hsame3 Ht3].
    split; [exact Hh2 |]. split.
    + exact (eq_trans Hsame Hsame3).
    + eapply no_io_since_trans; eassumption.
Qed.

(** X9: once the close notification has been handed to [on_close] (the
    object is not closing yet and is still referenced after the decrement),
    the handle is gone, the close flag is set and the descriptor released,
    the poll flags are untouched, and from then on no completion changes
    anything in the object but its reference count, and nothing is submitted
    to the system any more. *)
Theorem iocp_inert_once_closed size region os_recv os_send i s w1 s2 :
  Iocp.reachable s ->
  nth_error (Iocp.posted (Iocp.world s)) i = Some Iocp.close_overlapped_ ->
  Iocp.close_flag_ (Iocp.impl (Iocp.world s)) = false ->
  Iocp.refcnt_ (Iocp.impl (Iocp.world s)) <> 1 ->
  Iocp.on_iocp (Ok size) Iocp.close_overlapped_ region os_recv os_send
    (Iocp.take i (Iocp.world s)) = Done (tt, w1) ->
  Iocp.steps (Iocp.mkSystem (Iocp.handle s) w1) s2 ->
  Iocp.handle s = false /\
  Iocp.close_flag_ (Iocp.impl w1) = true /\
  native_fd (Iocp.info (Iocp.impl w1)) = empty_fd /\
  Iocp.get_flags w1 = Iocp.get_flags (Iocp.world s) /\
  same_but_refcnt (Iocp.impl w1) (Iocp.impl (Iocp.world s2)) /\
  no_io_since (Iocp.trace (Iocp.world s)) (Iocp.trace (Iocp.world s2)).
Proof.
  intros Hreach Hn Hcf Hrc H Hsteps.
  pose proof (reachable_Inv _ Hreach) as HI.
  assert (Hfirst :
    Iocp.handle s = false /\
    Iocp.close_flag_ (Iocp.impl w1) = true /\
    native_fd (Iocp.info (Iocp.impl w1)) = empty_fd /\
    Iocp.get_flags w1 = Iocp.get_flags (Iocp.world s) /\
    no_io_since (Iocp.trace (Iocp.world s)) (Iocp.trace w1)).
  { clear Hsteps Hreach s2. start_from HI. subst cf.
    assert (Hr1 : 1 <= rc).
    { pose proof (length_remove_nth _ _ _ Hn). destruct h; cbn [Z.b2z] in *; lia. }
    pose proof (count_remove_nth Iocp.close_overlapped_ _ _ _ Hn) as R4.
    cbn [Iocp.Overlapped_eqb] in R4.
    assert (Hh : h = false) by (destruct h; [specialize (C7 eq_refl); lia | reflexivity]).
    unfold_methods H. unwrap_in H.
    repeat (break_hyp H; try discriminate H); bool_props; try lia.
    all: injection H as <-.
    all: split; [exact Hh |]; split; [reflexivity |]; split; [reflexivity |].
    all: split; [reflexivity |].
    all: exists [Iocp.Ev_dec_refcnt]; split; reflexivity. }
  destruct Hfirst as (F1 & F2 & F3 & F4 & F5).
  rewrite F1 in Hsteps.
  destruct (closed_steps (Iocp.mkSystem false w1) s2 eq_refl F2 Hsteps) as (_ & Hsame & Ht).
  split; [exact F1 |]. split; [exact F2 |]. split; [exact F3 |]. split; [exact F4 |].
  split; [exact Hsame |]. eapply no_io_since_trans; eassumption.
Qed.

Lemma iocp_inert_once_closed_witness :
  false = false /\
  Iocp.close_flag_ (Iocp.impl closed) = true /\
  native_fd (Iocp.info (Iocp.impl closed)) = empty_fd /\
  Iocp.get_flags closed = Iocp.get_flags closing /\
  same_but_refcnt (Iocp.impl closed) (Iocp.impl released) /\
  no_io_since (Iocp.trace closing) (Iocp.trace released).
Proof.
  refine (iocp_inert_once_closed 0%N [] pending pending 1%nat
            (Iocp.mkSystem false closing) closed (Iocp.mkSystem false released)
            _ _ _ _ _ _).
  - apply (Iocp.reachable_step (Iocp.mkSystem true connected)).
    + apply (Iocp.reachable_step (Iocp.mkSystem true adopted)).
      * apply (Iocp.reachable_adopt 7). reflexivity.
      * apply (Iocp.step_on_iocp (Iocp.mkSystem true adopted) 0 Iocp.read_overlapped_
                 (Ok 0%N) [] pending pending); reflexivity.
    + apply (Iocp.step_close (Iocp.mkSystem true connected)); reflexivity.
  - reflexivity.
  - reflexivity.
  - discriminate.
  - reflexivity.
  - apply (Iocp.steps_step _ (Iocp.mkSystem false closed)); [apply Iocp.steps_refl |].
    apply (Iocp.step_on_iocp (Iocp.mkSystem false closed) 0 Iocp.read_overlapped_
             (Ok 0%N) [] pending pending); reflexivity.
Defined.

(** ** Completion backend: the end of the stream *)

(** The read completion that reports 0 bytes, handed to [on_read] or not. *)
Lemma zero_read_completion region os_recv os_send i s w' :
  Iocp.Inv s -> checks_hold s ->
  nth_error (Iocp.posted (Iocp.world s)) i = Some Iocp.read_overlapped_ ->
  Iocp.is_connected_ (Iocp.impl (Iocp.world s)) = true ->
  Iocp.on_iocp (Ok 0%N) Iocp.read_overlapped_ region os_recv os_send
    (Iocp.take i (Iocp.world s)) = Done (tt, w') ->
  read_idle (Iocp.mkSystem (Iocp.handle s) w') /\
  Iocp.no_read_since (Iocp.trace (Iocp.world s)) (Iocp.trace w') /\
  (Iocp.close_flag_ (Iocp.impl (Iocp.world s)) = true \/
   Iocp.refcnt_ (Iocp.impl (Iocp.world s)) = 1 ->
   Iocp.handle s = false /\ Iocp.get_flags w' = Iocp.get_flags (Iocp.world s)).
Proof.
  intros HI HC Hn Hic H. start_from HI. destruct HC as (K1 & K2 & K3 & K4 & K5).
  cbn [Iocp.world Iocp.impl Iocp.posted Iocp.handle Iocp.is_connected_
       Iocp.is_write_active_ Iocp.is_write_waiting_ Iocp.close_flag_ Iocp.output_
       Iocp.get_flags] in *.
  subst ic.
  pose proof (length_remove_nth _ _ _ Hn) as Hlen.
  pose proof (count_remove_nth Iocp.read_overlapped_ _ _ _ Hn) as R1.
  cbn [Iocp.Overlapped_eqb] in R1.
  assert (Hr1 : 1 <= rc) by (destruct h; cbn [Z.b2z] in *; lia).
  unfold_methods H. unwrap_in H.
  repeat (break_hyp H; try discriminate H); bool_props; try lia.
  all: injection H as <-.
  all: unfold read_idle, Iocp.no_read_since, Iocp.get_flags.
  all: cbn [Iocp.world Iocp.impl Iocp.posted Iocp.trace Iocp.info flags].
  all: (split; [lia |]); (split; [trace_grows |]).
  all: intros Hign; split;
         [ destruct h; [exfalso | reflexivity]; cbn [Z.b2z] in *;
           first [ specialize (K3 eq_refl); discriminate K3
                 | lia
                 | destruct Hign as [Hign | Hign]; [discriminate Hign | lia] ]
         | first [ reflexivity
                 | exfalso; destruct Hign as [Hign | Hign]; [discriminate Hign | lia] ] ].
Qed.

(** C8, as amended: once a read completion reports 0 transferred bytes on a
    connected socket, WSARecv is never called again for that socket.  When
    the completion is not ignored (the socket is not closing and the object
    is still referenced after the decrement of the callback) the Closed flag
    is set and stays set.  When it is ignored, the handle has let go of the
    socket before, and the poll flags are left as they were. *)
Theorem iocp_no_read_after_end_of_stream region os_recv os_send i s w1 s2 :
  Iocp.reachable s ->
  nth_error (Iocp.posted (Iocp.world s)) i = Some Iocp.read_overlapped_ ->
  Iocp.is_connected_ (Iocp.impl (Iocp.world s)) = true ->
  Iocp.on_iocp (Ok 0%N) Iocp.read_overlapped_ region os_recv os_send
    (Iocp.take i (Iocp.world s)) = Done (tt, w1) ->
  Iocp.steps (Iocp.mkSystem (Iocp.handle s) w1) s2 ->
  Iocp.no_read_since (Iocp.trace (Iocp.world s)) (Iocp.trace (Iocp.world s2)) /\
  (Iocp.close_flag_ (Iocp.impl (Iocp.world s)) = false ->
   Iocp.refcnt_ (Iocp.impl (Iocp.world s)) <> 1 ->
     PollFlags.close (flags (Iocp.info (Iocp.impl w1))) = true /\
     PollFlags.close (flags (Iocp.info (Iocp.impl (Iocp.world s2)))) = true) /\
  (Iocp.close_flag_ (Iocp.impl (Iocp.world s)) = true \/
   Iocp.refcnt_ (Iocp.impl (Iocp.world s)) = 1 ->
     Iocp.handle s = false /\ Iocp.get_flags w1 = Iocp.get_flags (Iocp.world s)).
Proof.
  intros Hreach Hn Hic Hcall Hsteps.
  pose proof (reachable_Inv _ Hreach) as HI.
  pose proof (reachable_checks _ Hreach) as HC.
  assert (HI1 : Iocp.Inv (Iocp.mkSystem (Iocp.handle s) w1))
    by (eapply Inv_on_iocp; eassumption).
  destruct (zero_read_completion _ _ _ _ _ _ HI HC Hn Hic Hcall) as (Hidle & Ht & Hign).
  destruct (idle_steps _ _ HI1 Hidle Hsteps) as (_ & _ & Ht2).
  split; [eapply no_read_since_trans; eassumption |].
  split; [| exact Hign].
  intros Hcf Hrc.
  destruct (on_read_zero_ends _ _ _ _ _ _ HI Hn Hic Hcf Hrc Hcall) as [HE _].
  destruct (ended_steps _ _ HI1 HE Hsteps) as (_ & HE2 & _).
  split; [apply HE | apply HE2].
Qed.

Lemma iocp_no_read_after_end_of_stream_witness :
  Iocp.no_read_since (Iocp.trace connected) (Iocp.trace ended_written) /\
  PollFlags.close (flags (Iocp.info (Iocp.impl ended))) = true /\
  PollFlags.close (flags (Iocp.info (Iocp.impl ended_written))) = true.
Proof.
  destruct (iocp_no_read_after_end_of_stream [] pending pending 0%nat
              (Iocp.mkSystem true connected) ended (Iocp.mkSystem true ended_written))
    as (A & B & _).
  - apply (Iocp.reachable_step (Iocp.mkSystem true adopted)).
    + apply (Iocp.reachable_adopt 7). reflexivity.
    + apply (Iocp.step_on_iocp (Iocp.mkSystem true adopted) 0 Iocp.read_overlapped_
               (Ok 0%N) [] pending pending); reflexivity.
  - reflexivity.
  - reflexivity.
  - reflexivity.
  - apply (Iocp.steps_step _ (Iocp.mkSystem true ended)); [apply Iocp.steps_refl |].
    apply (Iocp.step_write (Iocp.mkSystem true ended) hello (Ok 5%N)); reflexivity.
  - split; [exact A |]. apply B; [reflexivity | discriminate].
Defined.

(** C8 as stated does not hold: the owner has closed a connected socket and
    the close notification was delivered while a read and a write were
    outstanding; the read completion that then reports 0 bytes is ignored: the
    object stays alive, still referenced by the outstanding write, and the
    Closed flag is not set. *)
Lemma iocp_zero_read_ignored_when_closing :
  Iocp.reachable (Iocp.mkSystem false sending_closed) /\
  nth_error (Iocp.posted sending_closed) 0 = Some Iocp.read_overlapped_ /\
  Iocp.is_connected_ (Iocp.impl sending_closed) = true /\
  exists w1,
    Iocp.on_iocp (Ok 0%N) Iocp.read_overlapped_ [] pending pending
      (Iocp.take 0 sending_closed) = Done (tt, w1) /\
    PollFlags.close (Iocp.get_flags w1) = false /\
    Iocp.deleted w1 = 0%nat /\
    Iocp.refcnt_ (Iocp.impl w1) = 1 /\
    Iocp.posted w1 = [Iocp.write_overlapped_].
Proof.
  split; [| split; [reflexivity | split; [reflexivity |]]].
  - apply (Iocp.reachable_step (Iocp.mkSystem false (run_world Iocp.close sending))).
    + apply (Iocp.reachable_step (Iocp.mkSystem true sending)).
      * apply (Iocp.reachable_step
                 (Iocp.mkSystem true
                    (run_world (_ <- Iocp.write hello ;; ret tt) connected))).
        -- apply (Iocp.reachable_step (Iocp.mkSystem true connected)).
           ++ apply (Iocp.reachable_step (Iocp.mkSystem true adopted)).
              ** apply (Iocp.reachable_adopt 7). reflexivity.
              ** apply (Iocp.step_on_iocp (Iocp.mkSystem true adopted) 0
                          Iocp.read_overlapped_ (Ok 0%N) [] pending pending); reflexivity.
           ++ apply (Iocp.step_write (Iocp.mkSystem true connected) hello (Ok 5%N));
                reflexivity.
        -- apply (Iocp.step_on_iocp
                    (Iocp.mkSystem true
                       (run_world (_ <- Iocp.write hello ;; ret tt) connected))
                    1 Iocp.nullptr (Ok 0%N) [] pending pending); reflexivity.
      * apply (Iocp.step_close (Iocp.mkSystem true sending)); reflexivity.
    + apply (Iocp.step_on_iocp (Iocp.mkSystem false (run_world Iocp.close sending)) 2
               Iocp.close_overlapped_ (Ok 0%N) [] pending pending); reflexivity.
  - eexists. repeat split.
Qed.

(** ** Completion backend: a connect that failed at once *)

Ltac quiet_settle H :=
  injection H; clear H; intros;
  match goal with w' : Iocp.World |- _ => subst w' end;
  unfold never_connected, no_io_since;
  cbn [Iocp.world Iocp.impl Iocp.posted Iocp.trace Iocp.is_connected_];
  rewrite ?count_app, ?count_one; cbn [Iocp.Overlapped_eqb];
  split; [split; [reflexivity | lia] | trace_grows].

Lemma quiet_on_iocp r_size overlapped region os_recv os_send i s w' :
  Iocp.Inv s -> never_connected s ->
  nth_error (Iocp.posted (Iocp.world s)) i = Some overlapped ->
  Iocp.on_iocp r_size overlapped region os_recv os_send (Iocp.take i (Iocp.world s))
    = Done (tt, w') ->
  never_connected (Iocp.mkSystem (Iocp.handle s) w') /\
  no_io_since (Iocp.trace (Iocp.world s)) (Iocp.trace w').
Proof.
  intros HI [Hc HE] Hn H. start_from HI. cbn [Iocp.world Iocp.posted] in HE. subst ic.
  pose proof (count_remove_nth Iocp.read_overlapped_ _ _ _ Hn) as R1.
  pose proof (count_remove_nth Iocp.write_overlapped_ _ _ _ Hn) as R2.
  pose proof (count_remove_nth Iocp.nullptr _ _ _ Hn) as R3.
  pose proof (count_remove_nth Iocp.foreign_overlapped _ _ _ Hn) as R5.
  destruct (C5 eq_refl) as [C5a C5b].
  unfold_methods H.
  destruct overlapped; cbn [Iocp.Overlapped_eqb] in *; try lia;
    repeat (break_hyp H; try discriminate H);
    quiet_settle H.
Qed.

Ltac quiet_call HI HE H :=
  let Hc := fresh "Hc" in
  destruct HE as [Hc HE];
  start_from HI; cbn [Iocp.world Iocp.posted] in HE; subst_bools;
  match goal with C : false = false -> _ /\ _ |- _ => destruct (C eq_refl) end;
  subst_bools;
  unfold_methods H; unfold_flags H;
  repeat (break_hyp H; try discriminate H);
  quiet_settle H.

Lemma quiet_step s s' :
  Iocp.Inv s -> never_connected s -> Iocp.step s s' ->
  never_connected s' /\
  no_io_since (Iocp.trace (Iocp.world s)) (Iocp.trace (Iocp.world s')).
Proof.
  intros HI HE Hstep. destruct Hstep as [s data r w' Hh H | s slice r w' Hh H
    | s r w' Hh H | s w' Hh H | s i ov r_size region os_recv os_send w' Hn H].
  - quiet_call HI HE H.
  - quiet_call HI HE H.
  - quiet_call HI HE H.
  - quiet_call HI HE H.
  - eapply quiet_on_iocp; eassumption.
Qed.

Lemma quiet_steps s s' :
  Iocp.Inv s -> never_connected s -> Iocp.steps s s' ->
  Iocp.Inv s' /\ never_connected s' /\
  no_io_since (Iocp.trace (Iocp.world s)) (Iocp.trace (Iocp.world s')).
Proof.
  intros HI HE Hsteps. induction Hsteps as [s | s1 s2 s3 H12 IH H23].
  - split; [assumption | split; [assumption | apply no_io_since_refl]].
  - destruct (IH HI HE) as (HI2 & HE2 & Ht).
    destruct (quiet_step _ _ HI2 HE2 H23) as [HE3 Ht3].
    split; [eapply Inv_step; eassumption |].
    split; [exact HE3 | eapply no_io_since_trans; eassumption].
Qed.

(** X10: when the connecting constructor fails at once (WSAIoctl returns an
    error, or ConnectEx returns neither TRUE nor "pending"), it
    still returns an object: the error is the only entry of the queue of
    pending errors, the Error flag is latched, the handle holds the only
    reference and nothing is outstanding.  Whatever is done with that socket
    afterwards, it never becomes connected and no connect, read or write is
    ever handed to the system. *)
Theorem iocp_failed_connect_stays_unconnected fd ioctl connect :
  Iocp.wsa_status ioctl <> 0 \/
  (Iocp.wsa_status connect <> Iocp.TRUE /\
   Iocp.wsa_last_error connect <> Iocp.ERROR_IO_PENDING) ->
  exists w,
    Iocp.SocketFdImpl_connect ioctl connect (Iocp.fresh fd) = Done (tt, w) /\
    Iocp.pending_errors_ (Iocp.impl w) =
      [if Iocp.wsa_status ioctl =? 0
       then Iocp.OS_SOCKET_ERROR connect "Failed to connect"
       else Iocp.OS_SOCKET_ERROR ioctl "WSAIoctl failed"] /\
    PollFlags.error (Iocp.get_flags w) = true /\
    Iocp.refcnt_ (Iocp.impl w) = 1 /\
    Iocp.posted w = [] /\
    Iocp.deleted w = 0%nat /\
    forall s2,
      Iocp.steps (Iocp.mkSystem true w) s2 ->
      Iocp.is_connected_ (Iocp.impl (Iocp.world s2)) = false /\
      no_io_since (Iocp.trace w) (Iocp.trace (Iocp.world s2)).
Proof.
  intros Hfail.
  destruct (connect_constructor_returns fd ioctl connect) as [w Hw].
  exists w. split; [exact Hw |].
  pose proof (Inv_connect _ _ _ _ Hw) as HI.
  assert (Hfirst :
    Iocp.pending_errors_ (Iocp.impl w) =
      [if Iocp.wsa_status ioctl =? 0
       then Iocp.OS_SOCKET_ERROR connect "Failed to connect"
       else Iocp.OS_SOCKET_ERROR ioctl "WSAIoctl failed"] /\
    PollFlags.error (Iocp.get_flags w) = true /\
    Iocp.refcnt_ (Iocp.impl w) = 1 /\
    Iocp.posted w = [] /\
    Iocp.deleted w = 0%nat /\
    never_connected (Iocp.mkSystem true w)).
  { clear HI. unfold_methods Hw.
    assert (W2 : Iocp.wrap_int (1 + 1) = 2) by reflexivity.
    assert (W1 : Iocp.wrap_int (2 - 1) = 1) by reflexivity.
    rewrite ?W2, ?W1 in Hw.
    repeat (break_hyp Hw; try discriminate Hw); rewrite ?W2, ?W1 in *; bool_props;
      try (exfalso; unfold Iocp.TRUE in *; lia);
      injection Hw as <-; unfold never_connected, Iocp.get_flags;
      cbn; repeat split; reflexivity. }
  destruct Hfirst as (F1 & F2 & F3 & F4 & F5 & F6).
  split; [exact F1 |]. split; [exact F2 |]. split; [exact F3 |]. split; [exact F4 |].
  split; [exact F5 |].
  intros s2 Hsteps.
  destruct (quiet_steps _ _ HI F6 Hsteps) as (_ & [Hc _] & Ht).
  split; [exact Hc | exact Ht].
Qed.

Lemma iocp_failed_connect_stays_unconnected_witness :
  exists w,
    Iocp.SocketFdImpl_connect (Iocp.mkWsa 0 0) refused (Iocp.fresh 7) = Done (tt, w) /\
    Iocp.pending_errors_ (Iocp.impl w) =
      [Iocp.OS_SOCKET_ERROR refused "Failed to connect"] /\
    PollFlags.error (Iocp.get_flags w) = true /\
    Iocp.refcnt_ (Iocp.impl w) = 1 /\
    Iocp.posted w = [] /\
    Iocp.deleted w = 0%nat /\
    forall s2,
      Iocp.steps (Iocp.mkSystem true w) s2 ->
      Iocp.is_connected_ (Iocp.impl (Iocp.world s2)) = false /\
      no_io_since (Iocp.trace w) (Iocp.trace (Iocp.world s2)).
Proof.
  apply (iocp_failed_connect_stays_unconnected 7 (Iocp.mkWsa 0 0) refused).
  right. split; discriminate.
Defined.

(** ** Completion backend: the way of the bytes *)

(** X11: on a connected socket held by its handle, a read completion that
    reports [n > 0] bytes stages the first [n] bytes of the receive area
    behind the bytes already staged, sets Readable and submits the next read
    (the system taking it); the next [read] of the owner, no error being
    latched, returns the staged bytes from the front, in the order of their
    arrival, as many as fit the buffer. *)
Theorem iocp_received_bytes_are_read n region os_recv os_send i slice s :
  Iocp.reachable s ->
  Iocp.handle s = true ->
  Iocp.is_connected_ (Iocp.impl (Iocp.world s)) = true ->
  nth_error (Iocp.posted (Iocp.world s)) i = Some Iocp.read_overlapped_ ->
  n <> 0%N ->
  Iocp.taken os_recv = true ->
  PollFlags.has_pending_error (Iocp.get_flags (Iocp.world s)) = false ->
  let avail :=
    Iocp.chain (Iocp.input_ (Iocp.impl (Iocp.world s))) ++ firstn (N.to_nat n) region in
  let k := N.min (size slice) (size avail) in
  exists w1 w2,
    Iocp.on_iocp (Ok n) Iocp.read_overlapped_ region os_recv os_send
      (Iocp.take i (Iocp.world s)) = Done (tt, w1) /\
    PollFlags.read (Iocp.get_flags w1) = true /\
    Iocp.trace w1 =
      Iocp.trace (Iocp.world s) ++ [Iocp.Ev_dec_refcnt; Iocp.Ev_WSARecv; Iocp.Ev_inc_refcnt] /\
    Iocp.count Iocp.read_overlapped_ (Iocp.posted w1) = 1%nat /\
    Iocp.read slice w1 =
      Done ((Ok k, firstn (N.to_nat k) avail ++ skipn (N.to_nat k) slice), w2) /\
    Iocp.chain (Iocp.input_ (Iocp.impl w2)) = skipn (N.to_nat k) avail /\
    PollFlags.read (Iocp.get_flags w2) = negb (k =? 0)%N.
Proof.
  intros Hreach Hh Hic Hn Hpos Htaken Herr. cbv zeta.
  pose proof (reachable_Inv _ Hreach) as HI.
  pose proof (reachable_checks _ Hreach) as HC.
  assert (Hfirst : exists w1,
    Iocp.on_iocp (Ok n) Iocp.read_overlapped_ region os_recv os_send
      (Iocp.take i (Iocp.world s)) = Done (tt, w1) /\
    PollFlags.read (Iocp.get_flags w1) = true /\
    Iocp.trace w1 =
      Iocp.trace (Iocp.world s) ++ [Iocp.Ev_dec_refcnt; Iocp.Ev_WSARecv; Iocp.Ev_inc_refcnt] /\
    Iocp.count Iocp.read_overlapped_ (Iocp.posted w1) = 1%nat /\
    Iocp.chain (Iocp.input_ (Iocp.impl w1)) =
      Iocp.chain (Iocp.input_ (Iocp.impl (Iocp.world s))) ++ firstn (N.to_nat n) region /\
    PollFlags.has_pending_error (Iocp.get_flags w1) = false).
  { destruct (Iocp.on_iocp (Ok n) Iocp.read_overlapped_ region os_recv os_send
                (Iocp.take i (Iocp.world s))) as [[[] w1] | why] eqn:H;
      [exists w1; split; [reflexivity |] | exfalso].
    all: clear Hreach; start_from HI.
    all: destruct HC as (K1 & K2 & K3 & K4 & K5).
    all: cbn [Iocp.world Iocp.impl Iocp.posted Iocp.handle Iocp.is_connected_
              Iocp.is_write_active_ Iocp.close_flag_ Iocp.get_flags Iocp.info flags
              Iocp.input_ PollFlags.has_pending_error PollFlags.error] in *.
    all: subst h ic fe; cbn [Z.b2z] in *; specialize (K3 eq_refl); subst cf.
    all: pose proof (length_remove_nth _ _ _ Hn) as Hlen.
    all: pose proof (count_remove_nth Iocp.read_overlapped_ _ _ _ Hn) as R1.
    all: cbn [Iocp.Overlapped_eqb] in R1.
    all: assert (Hira : ira = true) by (destruct ira; [reflexivity | specialize (C2 eq_refl); lia]).
    all: subst ira.
    all: apply N.eqb_neq in Hpos.
    all: unfold Iocp.taken in Htaken.
    all: unfold_methods H; unwrap_in H; rewrite ?Hpos in H.
    all: repeat (break_hyp H; try discriminate H); bool_props; unwrap_all; try lia.
    all: try (rewrite ?Z.eqb_refl in Htaken; cbn in Htaken).
    all: repeat match goal with
                | Hx : ?a <> ?b |- _ =>
                    match type of Htaken with
                    | context [a =? b] => apply Z.eqb_neq in Hx; rewrite Hx in Htaken
                    end
                end; try discriminate Htaken.
    all: injection H as <-.
    all: unfold Iocp.get_flags, Iocp.confirm_append.
    all: cbn [Iocp.impl Iocp.info Iocp.trace Iocp.posted Iocp.input_ Iocp.chain flags
              info_add_flags PollFlags.union PollFlags.Read PollFlags.read PollFlags.error
              PollFlags.has_pending_error].
    all: rewrite ?count_app, ?count_one, ?orb_true_r, ?orb_false_r, <- ?app_assoc.
    all: cbn [Iocp.Overlapped_eqb app].
    all: repeat split; try reflexivity; try lia. }
  destruct Hfirst as (w1 & F1 & F2 & F3 & F4 & F5 & F6).
  destruct (iocp_read_without_error slice w1 (or_introl F6)) as (w2 & G1 & G2 & G3 & _).
  cbv zeta in G1, G2, G3. rewrite F5 in G1, G2, G3.
  exists w1, w2.
  split; [exact F1 |]. split; [exact F2 |]. split; [exact F3 |]. split; [exact F4 |].
  split; [exact G1 |]. split; [exact G2 |].
  rewrite G3, F2. destruct (N.min _ _ =? 0)%N; reflexivity.
Qed.

Lemma iocp_received_bytes_are_read_witness :
  exists w1 w2,
    Iocp.on_iocp (Ok 10%N) Iocp.read_overlapped_ (hello ++ hello) pending pending
      (Iocp.take 0 connected) = Done (tt, w1) /\
    PollFlags.read (Iocp.get_flags w1) = true /\
    Iocp.trace w1 =
      Iocp.trace connected ++ [Iocp.Ev_dec_refcnt; Iocp.Ev_WSARecv; Iocp.Ev_inc_refcnt] /\
    Iocp.count Iocp.read_overlapped_ (Iocp.posted w1) = 1%nat /\
    Iocp.read four_bytes w1 =
      Done ((Ok 4%N, [Byte.x68; Byte.x65; Byte.x6c; Byte.x6c]), w2) /\
    Iocp.chain (Iocp.input_ (Iocp.impl w2)) =
      [Byte.x6f; Byte.x68; Byte.x65; Byte.x6c; Byte.x6c; Byte.x6f] /\
    PollFlags.read (Iocp.get_flags w2) = true.
Proof.
  refine (iocp_received_bytes_are_read 10%N (hello ++ hello) pending pending 0%nat
            four_bytes (Iocp.mkSystem true connected) _ eq_refl eq_refl eq_refl _
            eq_refl eq_refl).
  - apply (Iocp.reachable_step (Iocp.mkSystem true adopted)).
    + apply (Iocp.reachable_adopt 7). reflexivity.
    + apply (Iocp.step_on_iocp (Iocp.mkSystem true adopted) 0 Iocp.read_overlapped_
               (Ok 0%N) [] pending pending); reflexivity.
  - discriminate.
Defined.


(** Use what is known of the answer of the system in [Htaken]. *)
Ltac use_answer Htaken :=
  try (rewrite ?Z.eqb_refl in Htaken; cbn in Htaken);
  repeat match goal with
         | Hx : ?a = ?b |- _ =>
             match type of Htaken with
             | context [a =? b] => rewrite (proj2 (Z.eqb_eq a b) Hx) in Htaken
             end
         | Hx : ?a <> ?b |- _ =>
             match type of Htaken with
             | context [a =? b] => rewrite (proj2 (Z.eqb_neq a b) Hx) in Htaken
             end
         end;
  cbn in Htaken; try discriminate Htaken.





Lemma reachable_connected : Iocp.reachable (Iocp.mkSystem true connected).
Proof.
  apply (Iocp.reachable_step (Iocp.mkSystem true adopted)).
  - apply (Iocp.reachable_adopt 7). reflexivity.
  - apply (Iocp.step_on_iocp (Iocp.mkSystem true adopted) 0 Iocp.read_overlapped_
             (Ok 0%N) [] pending pending); reflexivity.
Qed.

Lemma reachable_sending : Iocp.reachable (Iocp.mkSystem true sending).
Proof.
  apply (Iocp.reachable_step
           (Iocp.mkSystem true (run_world (_ <- Iocp.write hello ;; ret tt) connected))).
  - apply (Iocp.reachable_step (Iocp.mkSystem true connected)).
    + exact reachable_connected.
    + apply (Iocp.step_write (Iocp.mkSystem true connected) hello (Ok 5%N)); reflexivity.
  - apply (Iocp.step_on_iocp
             (Iocp.mkSystem true (run_world (_ <- Iocp.write hello ;; ret tt) connected))
             1 Iocp.nullptr (Ok 0%N) [] pending pending); reflexivity.
Qed.


(** ** Completion backend: a submission the system refuses *)

Ltac write_idle_settle H :=
  injection H; clear H; intros;
  match goal with w' : Iocp.World |- _ => subst w' end;
  unfold write_idle, no_send_since;
  cbn [Iocp.world Iocp.impl Iocp.posted Iocp.trace Iocp.is_connected_
       Iocp.is_write_waiting_];
  rewrite ?count_app, ?count_one; cbn [Iocp.Overlapped_eqb];
  split; [split; [reflexivity | split; [reflexivity | lia]] | trace_grows].

Lemma write_idle_on_iocp r_size overlapped region os_recv os_send i s w' :
  Iocp.Inv s -> write_idle s ->
  nth_error (Iocp.posted (Iocp.world s)) i = Some overlapped ->
  Iocp.on_iocp r_size overlapped region os_recv os_send (Iocp.take i (Iocp.world s))
    = Done (tt, w') ->
  write_idle (Iocp.mkSystem (Iocp.handle s) w') /\
  no_send_since (Iocp.trace (Iocp.world s)) (Iocp.trace w').
Proof.
  intros HI (W1 & W2 & W3) Hn H. start_from HI.
  cbn [Iocp.world Iocp.posted Iocp.impl Iocp.is_connected_ Iocp.is_write_waiting_] in *.
  subst ic iww.
  pose proof (count_remove_nth Iocp.write_overlapped_ _ _ _ Hn) as R2.
  pose proof (count_remove_nth Iocp.nullptr _ _ _ Hn) as R3.
  pose proof (count_remove_nth Iocp.foreign_overlapped _ _ _ Hn) as R5.
  unfold_methods H.
  destruct overlapped; cbn [Iocp.Overlapped_eqb] in *; try lia;
    repeat (break_hyp H; try discriminate H);
    write_idle_settle H.
Qed.

Ltac write_idle_call HI HE H :=
  destruct HE as (W1 & W2 & W3);
  start_from HI;
  cbn [Iocp.world Iocp.posted Iocp.impl Iocp.is_connected_ Iocp.is_write_waiting_] in *;
  subst_bools;
  unfold_methods H; unfold_flags H;
  repeat (break_hyp H; try discriminate H);
  write_idle_settle H.

Lemma write_idle_step s s' :
  Iocp.Inv s -> write_idle s -> Iocp.step s s' ->
  write_idle s' /\
  no_send_since (Iocp.trace (Iocp.world s)) (Iocp.trace (Iocp.world s')).
Proof.
  intros HI HE Hstep. destruct Hstep as [s data r w' Hh H | s slice r w' Hh H
    | s r w' Hh H | s w' Hh H | s i ov r_size region os_recv os_send w' Hn H].
  - write_idle_call HI HE H.
  - write_idle_call HI HE H.
  - write_idle_call HI HE H.
  - write_idle_call HI HE H.
  - eapply write_idle_on_iocp; eassumption.
Qed.

Lemma no_send_since_refl t : no_send_since t t.
Proof. exists []. split; [symmetry; apply app_nil_r | reflexivity]. Qed.

Lemma no_send_since_trans t1 t2 t3 :
  no_send_since t1 t2 -> no_send_since t2 t3 -> no_send_since t1 t3.
Proof.
  intros [l1 [-> H1]] [l2 [-> H2]]. exists (l1 ++ l2). split.
  - symmetry. apply app_assoc.
  - rewrite existsb_app, H1, H2. reflexivity.
Qed.

Lemma write_idle_steps s s' :
  Iocp.Inv s -> write_idle s -> Iocp.steps s s' ->
  Iocp.Inv s' /\ write_idle s' /\
  no_send_since (Iocp.trace (Iocp.world s)) (Iocp.trace (Iocp.world s')).
Proof.
  intros HI HE Hsteps. induction Hsteps as [s | s1 s2 s3 H12 IH H23].
  - split; [assumption | split; [assumption | apply no_send_since_refl]].
  - destruct (IH HI HE) as (HI2 & HE2 & Ht).
    destruct (write_idle_step _ _ HI2 HE2 H23) as [HE3 Ht3].
    split; [eapply Inv_step; eassumption |].
    split; [exact HE3 | eapply no_send_since_trans; eassumption].
Qed.

(** X14: when the system refuses the WSARecv that follows a read completion
    (it returns non-zero with an error other than "pending"), the
    bytes just received are staged and Readable is set all the same, the
    refusal is queued as "Failed to read from connection" with the
    Error flag latched, no reference is taken and [is_read_active_] stays
    clear; WSARecv is never called again for that socket. *)
Theorem iocp_refused_read_stops_reading n region os_recv os_send i s :
  Iocp.reachable s ->
  nth_error (Iocp.posted (Iocp.world s)) i = Some Iocp.read_overlapped_ ->
  Iocp.is_connected_ (Iocp.impl (Iocp.world s)) = true ->
  Iocp.close_flag_ (Iocp.impl (Iocp.world s)) = false ->
  Iocp.refcnt_ (Iocp.impl (Iocp.world s)) <> 1 ->
  n <> 0%N ->
  Iocp.taken os_recv = false ->
  exists w1,
    Iocp.on_iocp (Ok n) Iocp.read_overlapped_ region os_recv os_send
      (Iocp.take i (Iocp.world s)) = Done (tt, w1) /\
    Iocp.chain (Iocp.input_ (Iocp.impl w1)) =
      Iocp.chain (Iocp.input_ (Iocp.impl (Iocp.world s))) ++ firstn (N.to_nat n) region /\
    PollFlags.read (Iocp.get_flags w1) = true /\
    Iocp.pending_errors_ (Iocp.impl w1) =
      Iocp.pending_errors_ (Iocp.impl (Iocp.world s)) ++
      [Iocp.OS_SOCKET_ERROR os_recv "Failed to read from connection"] /\
    PollFlags.error (Iocp.get_flags w1) = true /\
    Iocp.is_read_active_ (Iocp.impl w1) = false /\
    Iocp.refcnt_ (Iocp.impl w1) = Iocp.refcnt_ (Iocp.impl (Iocp.world s)) - 1 /\
    Iocp.trace w1 = Iocp.trace (Iocp.world s) ++ [Iocp.Ev_dec_refcnt; Iocp.Ev_WSARecv] /\
    forall s2,
      Iocp.steps (Iocp.mkSystem (Iocp.handle s) w1) s2 ->
      Iocp.no_read_since (Iocp.trace w1) (Iocp.trace (Iocp.world s2)).
Proof.
  intros Hreach Hn Hic Hcf Hrc Hpos Htaken.
  pose proof (reachable_Inv _ Hreach) as HI.
  assert (Hfirst : exists w1,
    Iocp.on_iocp (Ok n) Iocp.read_overlapped_ region os_recv os_send
      (Iocp.take i (Iocp.world s)) = Done (tt, w1) /\
    Iocp.chain (Iocp.input_ (Iocp.impl w1)) =
      Iocp.chain (Iocp.input_ (Iocp.impl (Iocp.world s))) ++ firstn (N.to_nat n) region /\
    PollFlags.read (Iocp.get_flags w1) = true /\
    Iocp.pending_errors_ (Iocp.impl w1) =
      Iocp.pending_errors_ (Iocp.impl (Iocp.world s)) ++
      [Iocp.OS_SOCKET_ERROR os_recv "Failed to read from connection"] /\
    PollFlags.error (Iocp.get_flags w1) = true /\
    Iocp.is_read_active_ (Iocp.impl w1) = false /\
    Iocp.refcnt_ (Iocp.impl w1) = Iocp.refcnt_ (Iocp.impl (Iocp.world s)) - 1 /\
    Iocp.trace w1 = Iocp.trace (Iocp.world s) ++ [Iocp.Ev_dec_refcnt; Iocp.Ev_WSARecv] /\
    read_idle (Iocp.mkSystem (Iocp.handle s) w1)).
  { destruct (Iocp.on_iocp (Ok n) Iocp.read_overlapped_ region os_recv os_send
                (Iocp.take i (Iocp.world s))) as [[[] w1] | why] eqn:H;
      [exists w1; split; [reflexivity |] | exfalso].
    all: clear Hreach; start_from HI.
    all: cbn [Iocp.input_ Iocp.pending_errors_ Iocp.get_flags] in *.
    all: subst ic cf.
    all: pose proof (length_remove_nth _ _ _ Hn) as Hlen.
    all: pose proof (count_remove_nth Iocp.read_overlapped_ _ _ _ Hn) as R1.
    all: cbn [Iocp.Overlapped_eqb] in R1.
    all: assert (Hira : ira = true)
           by (destruct ira; [reflexivity | specialize (C2 eq_refl); lia]).
    all: subst ira.
    all: assert (Hr1 : 2 <= rc) by (destruct h; cbn [Z.b2z] in *; lia).
    all: apply N.eqb_neq in Hpos.
    all: unfold Iocp.taken in Htaken.
    all: unfold_methods H; unwrap_in H; rewrite ?Hpos in H.
    all: repeat (break_hyp H; try discriminate H); bool_props; unwrap_all; try lia.
    all: use_answer Htaken.
    all: injection H as <-.
    all: unfold Iocp.get_flags, Iocp.confirm_append, read_idle.
    all: cbn [Iocp.impl Iocp.info Iocp.trace Iocp.posted Iocp.input_ Iocp.chain flags
              Iocp.world Iocp.pending_errors_ Iocp.is_read_active_ Iocp.refcnt_
              info_add_flags PollFlags.union PollFlags.Read PollFlags.Error
              PollFlags.read PollFlags.error].
    all: rewrite ?orb_true_r, ?orb_false_r, <- ?app_assoc.
    all: cbn [app].
    all: repeat split; try reflexivity; try lia. }
  destruct Hfirst as (w1 & F1 & F2 & F3 & F4 & F5 & F6 & F7 & F8 & F9).
  exists w1.
  split; [exact F1 |]. split; [exact F2 |]. split; [exact F3 |]. split; [exact F4 |].
  split; [exact F5 |]. split; [exact F6 |]. split; [exact F7 |]. split; [exact F8 |].
  intros s2 Hsteps.
  assert (HI1 : Iocp.Inv (Iocp.mkSystem (Iocp.handle s) w1))
    by (eapply Inv_on_iocp; eassumption).
  destruct (idle_steps _ _ HI1 F9 Hsteps) as (_ & _ & Ht). exact Ht.
Qed.

Lemma iocp_refused_read_stops_reading_witness :
  exists w1,
    Iocp.on_iocp (Ok 10%N) Iocp.read_overlapped_ (hello ++ hello) connection_reset
      pending (Iocp.take 0 connected) = Done (tt, w1) /\
    Iocp.chain (Iocp.input_ (Iocp.impl w1)) = hello ++ hello /\
    PollFlags.read (Iocp.get_flags w1) = true /\
    Iocp.pending_errors_ (Iocp.impl w1) =
      [Iocp.OS_SOCKET_ERROR connection_reset "Failed to read from connection"] /\
    PollFlags.error (Iocp.get_flags w1) = true /\
    Iocp.is_read_active_ (Iocp.impl w1) = false /\
    Iocp.refcnt_ (Iocp.impl w1) = 1 /\
    Iocp.trace w1 = Iocp.trace connected ++ [Iocp.Ev_dec_refcnt; Iocp.Ev_WSARecv] /\
    forall s2,
      Iocp.steps (Iocp.mkSystem true w1) s2 ->
      Iocp.no_read_since (Iocp.trace w1) (Iocp.trace (Iocp.world s2)).
Proof.
  refine (iocp_refused_read_stops_reading 10%N (hello ++ hello) connection_reset pending
            0%nat (Iocp.mkSystem true connected) reachable_connected eq_refl eq_refl
            eq_refl _ _ eq_refl); discriminate.
Defined.

(** X15: the writer does not recover from a failure.  When a write completion
    that is not ignored carries an error, or reports [k > 0] bytes with bytes
    left to send and the system refuses the WSASend for them, the error
    is queued (the refusal as "Failed to write to connection") with
    the Error flag latched, the writer is neither parked nor waiting for a
    completion, and WSASend is never called again for that socket, whatever
    is written to it.  (WSASend is called for the bytes left when they are
    no more than a ULONG can count; the checked narrowing of their length
    terminates the process otherwise.) *)
Theorem iocp_failed_write_stops_writing r_size region os_recv os_send i s :
  Iocp.reachable s ->
  nth_error (Iocp.posted (Iocp.world s)) i = Some Iocp.write_overlapped_ ->
  Iocp.close_flag_ (Iocp.impl (Iocp.world s)) = false ->
  Iocp.refcnt_ (Iocp.impl (Iocp.world s)) <> 1 ->
  match r_size with
  | Err _ => True
  | Ok k =>
      k <> 0%N /\
      skipn (N.to_nat k) (Iocp.chain (Iocp.output_ (Iocp.impl (Iocp.world s)))) <> [] /\
      Iocp.taken os_send = false
  end ->
  (match r_size with
   | Err _ => True
   | Ok k =>
       (size (skipn (N.to_nat k) (Iocp.chain (Iocp.output_ (Iocp.impl (Iocp.world s)))))
        <= Iocp.ULONG_MAX)%N
   end ->
   exists w1,
     Iocp.on_iocp r_size Iocp.write_overlapped_ region os_recv os_send
       (Iocp.take i (Iocp.world s)) = Done (tt, w1) /\
     Iocp.pending_errors_ (Iocp.impl w1) =
       Iocp.pending_errors_ (Iocp.impl (Iocp.world s)) ++
       [match r_size with
        | Err e => Error e
        | Ok _ => Iocp.OS_SOCKET_ERROR os_send "Failed to write to connection"
        end] /\
     PollFlags.error (Iocp.get_flags w1) = true /\
     Iocp.is_write_waiting_ (Iocp.impl w1) = false /\
     Iocp.posted w1 = Iocp.remove_nth i (Iocp.posted (Iocp.world s)) /\
     Iocp.refcnt_ (Iocp.impl w1) = Iocp.refcnt_ (Iocp.impl (Iocp.world s)) - 1 /\
     forall s2,
       Iocp.steps (Iocp.mkSystem (Iocp.handle s) w1) s2 ->
       no_send_since (Iocp.trace w1) (Iocp.trace (Iocp.world s2))) /\
  (match r_size with
   | Err _ => False
   | Ok k =>
       (Iocp.ULONG_MAX <
        size (skipn (N.to_nat k) (Iocp.chain (Iocp.output_ (Iocp.impl (Iocp.world s))))))%N
   end ->
   Iocp.on_iocp r_size Iocp.write_overlapped_ region os_recv os_send
     (Iocp.take i (Iocp.world s)) = Fatal (CheckFailed "narrow_cast")).
Proof.
  intros Hreach Hn Hcf Hrc Hcase.
  pose proof (reachable_Inv _ Hreach) as HI.
  pose proof (reachable_checks _ Hreach) as HC.
  split; [intros Hfit | intros Hbig].
  - assert (Hfirst : exists w1,
      Iocp.on_iocp r_size Iocp.write_overlapped_ region os_recv os_send
        (Iocp.take i (Iocp.world s)) = Done (tt, w1) /\
      Iocp.pending_errors_ (Iocp.impl w1) =
        Iocp.pending_errors_ (Iocp.impl (Iocp.world s)) ++
        [match r_size with
         | Err e => Error e
         | Ok _ => Iocp.OS_SOCKET_ERROR os_send "Failed to write to connection"
         end] /\
      PollFlags.error (Iocp.get_flags w1) = true /\
      Iocp.is_write_waiting_ (Iocp.impl w1) = false /\
      Iocp.posted w1 = Iocp.remove_nth i (Iocp.posted (Iocp.world s)) /\
      Iocp.refcnt_ (Iocp.impl w1) = Iocp.refcnt_ (Iocp.impl (Iocp.world s)) - 1 /\
      write_idle (Iocp.mkSystem (Iocp.handle s) w1)).
    { destruct (Iocp.on_iocp r_size Iocp.write_overlapped_ region os_recv os_send
                  (Iocp.take i (Iocp.world s))) as [[[] w1] | why] eqn:H;
        [exists w1; split; [reflexivity |] | exfalso].
      all: clear Hreach; start_from HI.
      all: destruct HC as (K1 & K2 & K3 & K4 & K5).
      all: destruct outp as [oc ov].
      all: cbn [Iocp.world Iocp.impl Iocp.posted Iocp.handle Iocp.is_connected_ Iocp.trace
                Iocp.is_write_active_ Iocp.is_write_waiting_ Iocp.close_flag_ Iocp.output_
                Iocp.chain Iocp.refcnt_ Iocp.pending_errors_ Iocp.get_flags] in *.
      all: subst cf.
      all: pose proof (length_remove_nth _ _ _ Hn) as Hlen.
      all: pose proof (count_remove_nth Iocp.write_overlapped_ _ _ _ Hn) as R2.
      all: pose proof (count_remove_nth Iocp.nullptr _ _ _ Hn) as R3.
      all: cbn [Iocp.Overlapped_eqb] in R2, R3.
      all: assert (Hiwa : iwa = true)
             by (destruct iwa; [reflexivity | specialize (K2 eq_refl); lia]).
      all: assert (Hic : ic = true)
             by (destruct ic; [reflexivity | destruct (C5 eq_refl); lia]).
      all: assert (Hiww : iww = false)
             by (destruct iww; [specialize (C4 eq_refl); lia | reflexivity]).
      all: subst iwa ic iww.
      all: assert (Hr1 : 2 <= rc) by (destruct h; cbn [Z.b2z] in *; lia).
      all: destruct r_size as [k | e];
             [destruct Hcase as (Hpos & Hrest & Htaken);
              apply N.eqb_neq in Hpos; unfold Iocp.taken in Htaken |].
      all: unfold_methods H; unwrap_in H; rewrite ?Hpos in H.
      all: repeat (break_hyp H; try discriminate H); bool_props; unwrap_all; try lia.
      all: buffer_facts; try congruence.
      all: try (narrowing_fits; lia).
      all: try use_answer Htaken.
      all: injection H as <-.
      all: unfold Iocp.get_flags, write_idle.
      all: cbn [Iocp.impl Iocp.info Iocp.trace Iocp.posted flags
                Iocp.world Iocp.pending_errors_ Iocp.is_write_waiting_ Iocp.is_connected_
                Iocp.refcnt_ info_add_flags PollFlags.union PollFlags.Error PollFlags.error].
      all: rewrite ?orb_true_r.
      all: repeat split; try reflexivity; try lia. }
    destruct Hfirst as (w1 & F1 & F2 & F3 & F4 & F5 & F6 & F7).
    exists w1.
    split; [exact F1 |]. split; [exact F2 |]. split; [exact F3 |]. split; [exact F4 |].
    split; [exact F5 |]. split; [exact F6 |].
    intros s2 Hsteps.
    assert (HI1 : Iocp.Inv (Iocp.mkSystem (Iocp.handle s) w1))
      by (eapply Inv_on_iocp; eassumption).
    destruct (write_idle_steps _ _ HI1 F7 Hsteps) as (_ & _ & Ht). exact Ht.
  - destruct r_size as [k | e]; [| contradiction Hbig].
    destruct Hcase as (Hpos & Hrest & Htaken).
    destruct (Iocp.on_iocp (Ok k) Iocp.write_overlapped_ region os_recv os_send
                (Iocp.take i (Iocp.world s))) as [[[] w1] | why] eqn:H.
    all: clear Hreach; start_from HI.
    all: destruct HC as (K1 & K2 & K3 & K4 & K5).
    all: destruct outp as [oc ov].
    all: cbn [Iocp.world Iocp.impl Iocp.posted Iocp.handle Iocp.is_connected_ Iocp.trace
              Iocp.is_write_active_ Iocp.is_write_waiting_ Iocp.close_flag_ Iocp.output_
              Iocp.chain Iocp.refcnt_ Iocp.pending_errors_ Iocp.get_flags] in *.
    all: subst cf.
    all: pose proof (length_remove_nth _ _ _ Hn) as Hlen.
    all: pose proof (count_remove_nth Iocp.write_overlapped_ _ _ _ Hn) as R2.
    all: cbn [Iocp.Overlapped_eqb] in R2.
    all: assert (Hiwa : iwa = true)
           by (destruct iwa; [reflexivity | specialize (K2 eq_refl); lia]).
    all: assert (Hic : ic = true)
           by (destruct ic; [reflexivity | destruct (C5 eq_refl); lia]).
    all: subst iwa ic.
    all: assert (Hr1 : 2 <= rc) by (destruct h; cbn [Z.b2z] in *; lia).
    all: apply N.eqb_neq in Hpos.
    all: unfold_methods H; unwrap_in H; rewrite ?Hpos in H.
    all: repeat (break_hyp H; try discriminate H); bool_props; unwrap_all; try lia.
    all: buffer_facts; try congruence.
    all: repeat match goal with
                | Hx : (size _ <=? _)%N = true |- _ => apply N.leb_le in Hx
                end; try lia.
    all: injection H as <-; reflexivity.
Qed.

Lemma iocp_failed_write_stops_writing_witness :
  exists w1,
    Iocp.on_iocp (Ok 2%N) Iocp.write_overlapped_ [] pending connection_reset
      (Iocp.take 1 sending) = Done (tt, w1) /\
    Iocp.pending_errors_ (Iocp.impl w1) =
      [Iocp.OS_SOCKET_ERROR connection_reset "Failed to write to connection"] /\
    PollFlags.error (Iocp.get_flags w1) = true /\
    Iocp.is_write_waiting_ (Iocp.impl w1) = false /\
    Iocp.posted w1 = [Iocp.read_overlapped_] /\
    Iocp.refcnt_ (Iocp.impl w1) = 2 /\
    forall s2,
      Iocp.steps (Iocp.mkSystem true w1) s2 ->
      no_send_since (Iocp.trace w1) (Iocp.trace (Iocp.world s2)).
Proof.
  refine (proj1 (iocp_failed_write_stops_writing (Ok 2%N) [] pending connection_reset
                   1%nat (Iocp.mkSystem true sending) reachable_sending eq_refl eq_refl
                   _ _) _).
  - discriminate.
  - split; [discriminate |]. split; [discriminate | reflexivity].
  - vm_compute. discriminate.
Defined.

(** ** Completion backend: reading in pieces *)

Lemma firstn_then_firstn {A} (a b : nat) : forall l : list A,
  firstn a l ++ firstn b (skipn a l) = firstn (a + b) l.
Proof.
  induction a as [| a IH]; intros l; [reflexivity |].
  destruct l as [| x l]; simpl.
  - rewrite firstn_nil. reflexivity.
  - f_equal. apply IH.
Qed.

(** X16: two calls of [read] in a row, no error being latched, return
    consecutive pieces of the staged bytes: together they are the first
    [n1 + n2] staged bytes and exactly these are consumed.  Readable is
    cleared only by a call that returns 0: a call that takes the last staged
    byte leaves it set. *)
Theorem iocp_reads_are_consecutive (slice1 slice2 : MutableSlice) (w : Iocp.World) :
  PollFlags.has_pending_error (Iocp.get_flags w) = false ->
  let avail := Iocp.chain (Iocp.input_ (Iocp.impl w)) in
  let n1 := N.min (size slice1) (size avail) in
  let rest := skipn (N.to_nat n1) avail in
  let n2 := N.min (size slice2) (size rest) in
  exists w',
    read_twice slice1 slice2 w =
    Done (((Ok n1, firstn (N.to_nat n1) avail ++ skipn (N.to_nat n1) slice1),
           (Ok n2, firstn (N.to_nat n2) rest ++ skipn (N.to_nat n2) slice2)), w') /\
    firstn (N.to_nat n1) avail ++ firstn (N.to_nat n2) rest =
      firstn (N.to_nat (n1 + n2)) avail /\
    Iocp.chain (Iocp.input_ (Iocp.impl w')) = skipn (N.to_nat (n1 + n2)) avail /\
    PollFlags.read (Iocp.get_flags w') =
      (if (n1 =? 0)%N || (n2 =? 0)%N then false else PollFlags.read (Iocp.get_flags w)).
Proof.
  intros Herr. cbv zeta.
  destruct (iocp_read_without_error slice1 w (or_introl Herr))
    as (w1 & H1 & H2 & H3 & _ & _ & H6).
  cbv zeta in H1, H2, H3. specialize (H6 Herr).
  destruct (iocp_read_without_error slice2 w1 (or_introl H6))
    as (w2 & G1 & G2 & G3 & _).
  cbv zeta in G1, G2, G3. rewrite H2 in G1, G2, G3.
  exists w2. split; [| split; [| split]].
  - unfold read_twice, bind, ret. rewrite H1, G1. reflexivity.
  - rewrite firstn_then_firstn. f_equal. lia.
  - rewrite G2, skipn_skipn. f_equal. lia.
  - rewrite G3, H3.
    destruct (N.min (size slice1) _ =? 0)%N, (N.min (size slice2) _ =? 0)%N; reflexivity.
Qed.

Lemma iocp_reads_are_consecutive_witness :
  exists w',
    read_twice four_bytes (hello ++ hello) staged =
    Done (((Ok 4%N, [Byte.x68; Byte.x65; Byte.x6c; Byte.x6c]),
           (Ok 6%N, [Byte.x6f; Byte.x68; Byte.x65; Byte.x6c; Byte.x6c; Byte.x6f;
                     Byte.x65; Byte.x6c; Byte.x6c; Byte.x6f])), w') /\
    [Byte.x68; Byte.x65; Byte.x6c; Byte.x6c] ++
    [Byte.x6f; Byte.x68; Byte.x65; Byte.x6c; Byte.x6c; Byte.x6f] = hello ++ hello /\
    Iocp.chain (Iocp.input_ (Iocp.impl w')) = [] /\
    PollFlags.read (Iocp.get_flags w') = true.
Proof.
  exact (iocp_reads_are_consecutive four_bytes (hello ++ hello) staged eq_refl).
Defined.

(** ** Readiness backend: transfers that succeed *)

(** X17: on the readiness backend a transfer that succeeds leaves the object
    as it was.  [write] returns the count of the system call whenever that is
    not negative, without asking for a pending error and without clearing
    Writable, however few bytes were taken; [read], with no error latched and
    a non-empty buffer, returns a count above 0 without clearing Readable,
    however few bytes came. *)
Theorem posix_transfer_keeps_flags (E : Errno) (slice : Slice) (gso : Getsockopt)
    (os : Syscall) (w : Posix.World) :
  let fd := Posix.get_native_fd (Posix.impl w) in
  (0 <= sys_ret os ->
     Posix.write E slice os w =
     Done (Ok (Z.to_N (sys_ret os)),
           Posix.mkWorld (Posix.impl w) (Posix.trace w ++ [Posix.Sys_write fd (size slice)]))) /\
  (0 < sys_ret os -> (0 < size slice)%N ->
   PollFlags.has_pending_error (Posix.get_flags w) = false ->
     Posix.read E slice gso os w =
     Done (Ok (Z.to_N (sys_ret os)),
           Posix.mkWorld (Posix.impl w) (Posix.trace w ++ [Posix.Sys_read fd (size slice)]))).
Proof.
  cbv zeta. destruct w as [[[nfd [fw fr fc fe]]] t]. split.
  - intros H. apply Z.leb_le in H.
    unfold Posix.write. run. cbn. rewrite H. reflexivity.
  - intros H Hs He. cbn in He. subst fe.
    assert (H0 : (0 <=? sys_ret os) = true) by (apply Z.leb_le; lia).
    assert (H1 : (sys_ret os =? 0) = false) by (apply Z.eqb_neq; lia).
    apply N.ltb_lt in Hs.
    unfold Posix.read. run. cbn. rewrite Hs. cbn. rewrite H0, H1. reflexivity.
Qed.

Lemma posix_transfer_keeps_flags_witness :
  Posix.write linux hello (mkSys 2 0) (posix_socket PollFlags.Write) =
  Done (Ok 2%N, Posix.mkWorld (Posix.mkImpl (mkInfo 7 PollFlags.Write)) [Posix.Sys_write 7 5]) /\
  Posix.read linux hello (mkGso 0 0 0) (mkSys 2 0) (posix_socket PollFlags.Read) =
  Done (Ok 2%N, Posix.mkWorld (Posix.mkImpl (mkInfo 7 PollFlags.Read)) [Posix.Sys_read 7 5]).
Proof.
  split.
  - apply (proj1 (posix_transfer_keeps_flags linux hello (mkGso 0 0 0) (mkSys 2 0)
                    (posix_socket PollFlags.Write))).
    simpl. lia.
  - apply (proj2 (posix_transfer_keeps_flags linux hello (mkGso 0 0 0) (mkSys 2 0)
                    (posix_socket PollFlags.Read))).
    + simpl. lia.
    + reflexivity.
    + reflexivity.
Defined.
